(** * scripts/apply_i18n_auto.py: the i18n checker

    A shallow embedding of the script and the properties its specification
    states about it.

    - Python [str] values are sequences of Unicode code points: a character
      is an [N], a string a [list N].  [len] is [length], slicing is
      [firstn], [+] is [++].
    - [re.findall] is modelled by a small backtracking matcher for the
      constructs the script's pattern uses (literal, negated class, dot,
      concatenation, greedy star, capturing group).
    - [TRANSLATIONS] is a [gmap]; [set(...)] followed by [list(...)] is an
      iteration order, kept abstract in the class [SetOrder].
    - [print], [os.path.exists] and [open] act on a [world] (the disk and
      what was printed), threaded by the monad [M], which also carries the
      exceptions [open] raises. *)

From Stdlib Require Import NArith Ascii String DecimalString.
From stdpp Require Import gmap list fin_maps.

Local Open Scope N_scope.
Local Open Scope nat_scope.

(** ** Characters and strings *)

Abbreviation char := N (only parsing).
Abbreviation str := (list N) (only parsing).

(** An ASCII literal of the script as a [str]. *)
Definition s (x : string) : str := map N_of_ascii (list_ascii_of_string x).

Definition dquote : char := 34%N.        (* the double quote *)
Definition backslash : char := 92%N.
Definition linefeed : char := 10%N.
Definition slash : char := 47%N.
Definition arrow : char := 0x2192%N.     (* U+2192, the arrow of a suggestion *)
Definition hash : char := 35%N.

(** The f-string that puts [string] back between double quotes. *)
Definition quoted (string : str) : str := dquote :: string ++ [dquote].

(** [str.startswith] *)
Fixpoint startswith (x prefix : str) {struct prefix} : bool :=
  match prefix, x with
  | [], _ => true
  | _ :: _, [] => false
  | p :: prefix', c :: x' => (c =? p)%N && startswith x' prefix'
  end.

(** [needle in hay] on strings: [needle] occurs at some offset of [hay]. *)
Fixpoint str_in (needle hay : str) : bool :=
  startswith hay needle ||
  match hay with
  | [] => false
  | _ :: hay' => str_in needle hay'
  end.

(** [str(n)] for a natural number. *)
Fixpoint digits (d : Decimal.uint) : str :=
  match d with
  | Decimal.Nil => []
  | Decimal.D0 d => 48%N :: digits d
  | Decimal.D1 d => 49%N :: digits d
  | Decimal.D2 d => 50%N :: digits d
  | Decimal.D3 d => 51%N :: digits d
  | Decimal.D4 d => 52%N :: digits d
  | Decimal.D5 d => 53%N :: digits d
  | Decimal.D6 d => 54%N :: digits d
  | Decimal.D7 d => 55%N :: digits d
  | Decimal.D8 d => 56%N :: digits d
  | Decimal.D9 d => 57%N :: digits d
  end.

Definition str_of_nat (n : nat) : str := digits (Nat.to_uint n).

(** ** Regular expressions, as [re] runs them *)

Module Re.

(** The constructs of the script's pattern. *)
Inductive regex : Type :=
| Lit (c : char)              (* one given character *)
| NoneOf (cs : list char)     (* [^...] *)
| AnyChar                     (* . : any character but a line feed *)
| Cat (r1 r2 : regex)
| Star (r : regex)            (* greedy r* *)
| Group (i : nat) (r : regex) (* capturing group number i *).

(** What each group captured last, if it took part in the match. *)
Definition captures : Type := nat -> option str.

Definition no_captures : captures := fun _ => None.

Definition capture (i : nat) (text : str) (g : captures) : captures :=
  fun j => if Nat.eqb j i then Some text else g j.

Section Matcher.
Context {A : Type}.

(** A continuation receives the input left and the captures so far. *)
Definition cont : Type := str -> captures -> option A.

(** Greedy repetition of [body]: one more round first, the rest of the
    pattern only when that fails.  A round that consumes nothing ends the
    repetition.  [fuel] bounds the number of rounds. *)
Fixpoint star (body : str -> captures -> cont -> option A)
    (fuel : nat) (x : str) (g : captures) (k : cont) : option A :=
  match fuel with
  | O => k x g
  | S fuel' =>
      match body x g (fun x' g' =>
               if (length x' <? length x)%nat
               then star body fuel' x' g' k else None) with
      | Some a => Some a
      | None => k x g
      end
  end.

(** Backtracking match of [r] at the front of [x], then [k]. *)
Fixpoint exec (r : regex) (x : str) (g : captures) (k : cont) : option A :=
  match r with
  | Lit c =>
      match x with
      | c' :: x' => if (c' =? c)%N then k x' g else None
      | [] => None
      end
  | NoneOf cs =>
      match x with
      | c' :: x' => if existsb (N.eqb c') cs then None else k x' g
      | [] => None
      end
  | AnyChar =>
      match x with
      | c' :: x' => if (c' =? linefeed)%N then None else k x' g
      | [] => None
      end
  | Cat r1 r2 => exec r1 x g (fun x' g' => exec r2 x' g' k)
  | Star r1 => star (exec r1) (length x) x g k
  | Group i r1 =>
      exec r1 x g (fun x' g' =>
        k x' (capture i (firstn (length x - length x') x) g'))
  end.
End Matcher.

(** [pattern.match(x)]: the captures and the input after the match. *)
Definition match_at (r : regex) (x : str) : option (captures * str) :=
  exec r x no_captures (fun x' g => Some (g, x')).

(** [m.group(i)] as [findall] reports it: empty when the group took no
    part. *)
Definition group (g : captures) (i : nat) : str := default [] (g i).

(** [re.findall] for a pattern with two groups: the pairs (group 1,
    group 2) of the successive non-overlapping matches, leftmost first.
    [skip] counts the characters of [x] still covered by the match found
    last. *)
Fixpoint findall_from (r : regex) (skip : nat) (x : str) : list (str * str) :=
  match skip, x with
  | S skip', _ :: x' => findall_from r skip' x'
  | S _, [] => []
  | O, [] =>
      match match_at r [] with
      | Some (g, _) => [(group g 1, group g 2)]
      | None => []
      end
  | O, _ :: x' =>
      match match_at r x with
      | Some (g, rest) =>
          (group g 1, group g 2)
            :: findall_from r (length x - length rest - 1) x'
      | None => findall_from r 0 x'
      end
  end.

Definition findall (r : regex) (x : str) : list (str * str) :=
  findall_from r 0 x.

End Re.

(** ** The script *)

(** The script's pattern.  With Q for the double quote and B for the
    backslash it reads [Q ( [^QB]* ( B . [^QB]* )* ) Q]: an opening quote,
    group 1 made of a run of the class followed by any number of rounds of
    group 2, and a closing quote. *)

(** The class [^QB]. *)
Definition class : Re.regex := Re.NoneOf [dquote; backslash].

(** Group 2: a backslash, one more character, a run of the class. *)
Definition round : Re.regex :=
  Re.Group 2 (Re.Cat (Re.Lit backslash) (Re.Cat Re.AnyChar (Re.Star class))).

Definition pattern : Re.regex :=
  Re.Cat (Re.Lit dquote)
    (Re.Cat (Re.Group 1 (Re.Cat (Re.Star class) (Re.Star round)))
       (Re.Lit dquote)).

(** *** The world the script runs in *)

(** The exceptions the script's calls raise.  IsADirectoryError and
    PermissionError are kinds of OSError; UnicodeDecodeError is a
    ValueError, and no OSError. *)
Inductive exn : Type :=
| FileNotFoundError
| OSError
| UnicodeDecodeError.

(** Why a path that exists cannot be read as text: [open] refuses it (a
    directory, a file without read permission), or [read] finds bytes that
    are not UTF-8. *)
Inductive cause : Type :=
| NoAccess
| NotUtf8.

(** The exception each cause ends in. *)
Definition raised (why : cause) : exn :=
  match why with
  | NoAccess => OSError
  | NotUtf8 => UnicodeDecodeError
  end.

(** What a path names on disk: a file [open] and [read] give the decoded
    text of, or something that exists but cannot be read as text. *)
Inductive entry : Type :=
| File (text : str)
| Unreadable (why : cause).

Record world : Type := World {
  disk : gmap str entry;     (* path to entry *)
  stdout : list str          (* one element per call of print *)
}.

Inductive result (A : Type) : Type :=
| Ok (a : A) (w : world)
| Raise (e : exn) (w : world).
Arguments Ok {A} a w.
Arguments Raise {A} e w.

Definition M (A : Type) : Type := world -> result A.

#[export] Instance M_ret : MRet M := fun A a w => Ok a w.

#[export] Instance M_bind : MBind M := fun A B f m w =>
  match m w with
  | Ok a w' => f a w'
  | Raise e w' => Raise e w'
  end.

Definition final {A : Type} (r : result A) : world :=
  match r with
  | Ok _ w => w
  | Raise _ w => w
  end.

Definition print (line : str) : M unit :=
  fun w => Ok tt (World (disk w) (stdout w ++ [line])).

Definition os_path_exists (path : str) : M bool :=
  fun w => Ok (bool_decide (is_Some (disk w !! path))) w.

(** The modes of [open]. *)
Inductive open_mode : Type :=
| mode_r
| mode_w.

(** [open(path, mode, encoding='utf-8')] followed by [f.read()].  Mode 'r'
    leaves the disk as it is: a missing path raises FileNotFoundError, a
    path [open] refuses an OSError, and bytes that are not UTF-8 make
    [read] raise UnicodeDecodeError.  Mode 'w' creates or truncates the
    file, and reading from a file opened for writing then raises. *)
Definition open_read (path : str) (mode : open_mode) : M str :=
  fun w =>
    match mode, disk w !! path with
    | mode_r, Some (File text) => Ok text w
    | mode_r, Some (Unreadable why) => Raise (raised why) w
    | mode_r, None => Raise FileNotFoundError w
    | mode_w, Some (Unreadable NoAccess) => Raise OSError w
    | mode_w, _ => Raise OSError (World (<[path := File []]> (disk w)) (stdout w))
    end.

(** A [for] loop whose body is run for its effects. *)
Fixpoint for_each {A : Type} (l : list A) (body : A -> M unit) : M unit :=
  match l with
  | [] => mret tt
  | a :: l' => body a ;; for_each l' body
  end.

(** *** The table *)

Definition TRANSLATIONS_entries : list (list N * list N) := [
  (* Auth screens *)
  (quoted (s "Welcome Back"), s "t('auth.welcomeBack')");
  (quoted (s "Sign in to continue to Patrick Travel Services"),
     s "t('auth.signInToContinue')");
  (quoted (s "Create Account"), s "t('auth.createAccount')");
  (quoted (s "Sign up to get started with Patrick Travel Services"),
     s "t('auth.signUpToGetStarted')");
  (quoted (s "Email"), s "t('auth.email')");
  (quoted (s "Password"), s "t('auth.password')");
  (quoted (s "Confirm Password"), s "t('auth.confirmPassword')");
  (quoted (s "First Name"), s "t('auth.firstName')");
  (quoted (s "Last Name"), s "t('auth.lastName')");
  (quoted (s "Phone (Optional)"), s "t('auth.phoneOptional')");
  (quoted (s "Sign In"), s "t('auth.signIn')");
  (quoted (s "Sign Up"), s "t('auth.signUp')");
  (quoted (s "Remember me"), s "t('auth.rememberMe')");
  (quoted (s "Forgot Password?"), s "t('auth.forgotPassword')");
  (quoted (s "Don't have an account? "), s "t('auth.dontHaveAccount') + ' '");
  (quoted (s "Already have an account? "),
     s "t('auth.alreadyHaveAccount') + ' '");
  (* Dashboard *)
  (quoted (s "Total Cases"), s "t('dashboard.totalCases')");
  (quoted (s "Active Cases"), s "t('dashboard.activeCases')");
  (quoted (s "Pending Documents"), s "t('dashboard.pendingDocuments')");
  (quoted (s "Unread Messages"), s "t('dashboard.unreadMessages')");
  (quoted (s "Quick Actions"), s "t('dashboard.quickActions')");
  (quoted (s "Submit New Case"), s "t('dashboard.submitNewCase')");
  (quoted (s "Upload Document"), s "t('dashboard.uploadDocument')");
  (quoted (s "View FAQs"), s "t('dashboard.viewFAQs')");
  (* Cases *)
  (quoted (s "Search by reference number"), s "t('cases.searchByReference')");
  (quoted (s "No cases found"), s "t('cases.noCasesFound')");
  (quoted (s "Message Advisor"), s "t('cases.messageAdvisor')");
  (quoted (s "Status History"), s "t('cases.statusHistory')");
  (* Common *)
  (quoted (s "Loading..."), s "t('common.loading')");
  (quoted (s "Success"), s "t('common.success')");
  (quoted (s "Error"), s "t('common.error')");
  (quoted (s "OK"), s "t('common.ok')");
  (quoted (s "Cancel"), s "t('common.cancel')");
  (quoted (s "Save"), s "t('common.save')");
  (quoted (s "Delete"), s "t('common.delete')")
].

Definition TRANSLATIONS : gmap (list N) (list N) :=
  list_to_map TRANSLATIONS_entries.

Arguments TRANSLATIONS_entries : simpl never.
Arguments TRANSLATIONS : simpl never.
Opaque TRANSLATIONS.

(** *** Sets of strings *)

(** [list(set(l))]: the elements of [l], each once, in the order in which
    the interpreter's hash table yields them.  That order is all the
    script does not determine, so it is a parameter of the model. *)
Class SetOrder : Type := {
  list_of_set : list (list N) -> list (list N);
  list_of_set_NoDup : forall l, NoDup (list_of_set l);
  list_of_set_elem_of : forall l x, x ∈ list_of_set l <-> x ∈ l
}.

(** One such order: the one stdpp's [gset] enumerates its elements in. *)
Definition gset_elements (l : list (list N)) : list (list N) :=
  elements (list_to_set l : gset (list N)).

(** *** find_hardcoded_strings and check_file *)

(** The test of the filtering loop: longer than two characters, and not
    starting like a path or a colour code. *)
Definition likely_ui (string : str) : bool :=
  (2 <? length string) && negb (startswith string [slash])
    && negb (startswith string [hash]).

(** The loop over [matches], appending to [ui_strings]. *)
Fixpoint collect (matches : list (list N * list N)) (ui_strings : list (list N))
    : list (list N) :=
  match matches with
  | [] => ui_strings
  | match_ :: matches' =>
      let string := match_.1 in
      if likely_ui string
      then collect matches' (ui_strings ++ [quoted string])
      else collect matches' ui_strings
  end.

(** The filtered candidates of a text, before [set] is applied. *)
Definition ui_strings_of (content : str) : list (list N) :=
  collect (Re.findall pattern content) [].

Definition marker : str := s "useTranslation".

Definition header_line (file_path : str) : str :=
  [linefeed; 0x1F4C4%N; 32%N] ++ file_path.

Definition missing_import_line : str :=
  [32%N; 32%N; 0x274C%N]
    ++ s " Missing: import { useTranslation } from 'react-i18next';".

Definition missing_hook_line : str :=
  [32%N; 32%N; 0x274C%N] ++ s " Missing: const { t } = useTranslation();".

Definition imported_line : str :=
  [32%N; 32%N; 0x2705%N] ++ s " useTranslation imported".

Definition found_line (n : nat) : str :=
  s "  Found " ++ str_of_nat n ++ s " potential hardcoded strings".

Definition suggestion_line (candidate replacement : str) : str :=
  s "    " ++ candidate ++ [32%N; arrow; 32%N] ++ replacement.

Section Script.
Context {O : SetOrder}.

Definition find_hardcoded_strings (file_path : str) : M (list (list N)) :=
  content ← open_read file_path mode_r;
  mret (list_of_set (ui_strings_of content)).

Definition check_file (file_path : str) : M unit :=
  found ← os_path_exists file_path;
  if negb found then mret tt
  else
    print (header_line file_path);;
    content ← open_read file_path mode_r;
    (if negb (str_in marker content)
     then print missing_import_line;; print missing_hook_line
     else print imported_line);;
    strings ← find_hardcoded_strings file_path;
    match strings with
    | [] => mret tt
    | _ :: _ =>
        print (found_line (length strings));;
        for_each (firstn 5 strings) (fun c =>
          match TRANSLATIONS !! c with
          | Some replacement => print (suggestion_line c replacement)
          | None => mret tt
          end)
    end.

Definition files : list (list N) := [
  s "features/auth/screens/RegisterScreen.tsx";
  s "features/auth/screens/ForgotPasswordScreen.tsx";
  s "app/(tabs)/index.tsx";
  s "app/(tabs)/cases.tsx";
  s "app/(tabs)/documents.tsx";
  s "app/(tabs)/messages.tsx";
  s "app/(tabs)/profile.tsx"
].

(** The loop at the end of the script, over any list of paths. *)
Definition check_files (paths : list (list N)) : M unit :=
  for_each paths check_file.

(** The script from its first [print] to its last. *)
Definition main : M unit :=
  print (0x1F30D%N :: s " i18n Checker - Patrick Travel Services Mobile");;
  print (repeat 61%N 60);;
  check_files files;;
  print (linefeed :: 0x2705%N :: s " Check complete!");;
  print (linefeed :: s "See I18N_IMPLEMENTATION.md for full translation guide").

(** What [check_file] prints, on a world that has printed nothing. *)
Definition report (d : gmap (list N) entry) (file_path : str) : list (list N) :=
  stdout (final (check_file file_path (World d []))).
End Script.

(** ** Reading the pattern by hand

    The functions below scan a text the way a reader of the pattern would,
    character by character and without backtracking.  They are proved
    equal to what the matcher computes, and stand for it in the proofs. *)

(** A character of the class [^QB]: neither the double quote nor the
    backslash. *)
Definition plain (c : char) : bool :=
  negb (existsb (N.eqb c) [dquote; backslash]).

(** The input left when the longest run of plain characters is dropped. *)
Fixpoint skip_plain (x : str) : str :=
  match x with
  | c :: x' => if plain c then skip_plain x' else x
  | [] => []
  end.

(** The input left after the longest text group 1 can cover: plain
    characters, and backslashes together with the character that follows,
    unless that is a line feed. *)
Fixpoint body_end (x : str) : str :=
  match x with
  | [] => []
  | c :: x' =>
      if plain c then body_end x'
      else if (c =? backslash)%N then
        match x' with
        | e :: x'' => if (e =? linefeed)%N then x else body_end x''
        | [] => x
        end
      else x
  end.

(** A literal at the front of [x]: its interior and the text after its
    closing quote. *)
Definition literal_at (x : str) : option (list N * list N) :=
  match x with
  | q :: x' =>
      if (q =? dquote)%N then
        match body_end x' with
        | q' :: rest =>
            if (q' =? dquote)%N
            then Some (firstn (length x' - length (body_end x')) x', rest)
            else None
        | [] => None
        end
      else None
  | [] => None
  end.

(** Texts made of plain characters and of escaped units only, a unit being
    a backslash and one character other than the line feed. *)
Fixpoint escaped_text (x : str) : bool :=
  match x with
  | [] => true
  | c :: x' =>
      if plain c then escaped_text x'
      else if (c =? backslash)%N then
        match x' with
        | e :: x'' => negb (e =? linefeed)%N && escaped_text x''
        | [] => false
        end
      else false
  end.

(** Whether the scan of [x] ends outside every literal, so that a literal
    put right after [x] is looked for at its opening quote.  A double
    quote of [x] opens a literal that is closed further on in [x], and the
    scan goes on after it; or it opens nothing, its text running into a
    backslash and a line feed, and the scan goes on after the quote; or
    its text runs to the end of [x], and what follows [x] is read as more
    of that literal.  [skip] counts the characters of [x] still covered by
    the literal found last. *)
Fixpoint outside_from (skip : nat) (x : str) : bool :=
  match skip, x with
  | _, [] => true
  | S skip', _ :: x' => outside_from skip' x'
  | O, c :: x' =>
      if (c =? dquote)%N then
        match body_end x' with
        | [] => false
        | q :: rest =>
            if (q =? dquote)%N
            then outside_from (length x' - length rest) x'
            else match rest with
                 | [] => false
                 | _ :: _ => outside_from 0 x'
                 end
        end
      else outside_from 0 x'
  end.

Definition outside (x : str) : bool := outside_from 0 x.

(** The raw candidates of a text: group 1 of every match. *)
Definition raw_candidates (content : str) : list (list N) :=
  (Re.findall pattern content).*1.

(** ** The report in closed form *)

Definition marker_lines (content : str) : list (list N) :=
  if str_in marker content then [imported_line]
  else [missing_import_line; missing_hook_line].

(** The suggestion lines for the first five of [strings]. *)
Definition preview_lines (strings : list (list N)) : list (list N) :=
  omap (fun c => suggestion_line c <$> TRANSLATIONS !! c) (take 5 strings).

Definition candidate_lines (strings : list (list N)) : list (list N) :=
  match strings with
  | [] => []
  | _ :: _ => found_line (length strings) :: preview_lines strings
  end.

(** A continuation that fails on every input starting with a plain
    character: what follows a run of the class in the pattern. *)
Definition wants_delimiter {A : Type} (k : @Re.cont A) : Prop :=
  forall c y g, plain c = true -> k (c :: y) g = None.

(** A continuation that fails unless the input starts with a double
    quote: what follows group 1 in the pattern. *)
Definition wants_quote {A : Type} (k : @Re.cont A) : Prop :=
  forall y g, head y <> Some dquote -> k y g = None.

(** The first three characters tell the kinds of lines apart. *)
Definition line_start (line : list N) : list N := take 3 line.

(** ** Sample files *)

Definition welcome_file : list N :=
  s "const x = " ++ quoted (s "Welcome Back") ++ s "; const y = "
    ++ quoted (s "Welcome Back") ++ s ";".

Definition welcome_disk : gmap (list N) entry :=
  {[ s "app/(tabs)/index.tsx" := File welcome_file ]}.

Definition empty_disk : gmap (list N) entry :=
  {[ s "app/(tabs)/index.tsx" := File [] ]}.

Definition two_literals_file : list N :=
  s "title = " ++ quoted (s "Sign In") ++ s "; hint = "
    ++ quoted (s "Type here") ++ s ";".

Definition two_literals_disk : gmap (list N) entry :=
  {[ s "app/(tabs)/index.tsx" := File two_literals_file ]}.

Definition wired_file : list N :=
  s "const { t } = useTranslation(); label = " ++ quoted (s "Email") ++ s ";".

Definition wired_disk : gmap (list N) entry :=
  {[ s "app/(tabs)/index.tsx" := File welcome_file;
     s "app/(tabs)/cases.tsx" := File wired_file ]}.

Definition mixed_file : list N :=
  quoted (s "ab") ++ quoted (s "/home/user") ++ quoted (s "#ff0000")
    ++ quoted (s "Save").

Definition mixed_disk : gmap (list N) entry :=
  {[ s "app/(tabs)/index.tsx" := File mixed_file ]}.

(** The interior of the literal of the claim: She said, an escaped quote,
    hi, an escaped quote. *)
Definition she_said : list N :=
  s "She said " ++ [backslash; dquote] ++ s "hi" ++ [backslash; dquote].

(** A literal continued on the next line: a backslash, then a line feed. *)
Definition continued_literal : list N :=
  quoted (s "two" ++ [backslash; linefeed] ++ s "lines").

(** The text before the literal of the claim in a file that has a
    complete literal first. *)
Definition after_import : list N :=
  s "import x from " ++ quoted (s "react") ++ s "; const m = ".

(** The literal of the claim after a single-quoted double quote. *)
Definition after_lone_quote : list N :=
  s "const q = '" ++ [dquote] ++ s "'; const m = " ++ quoted she_said ++ s ";".

Definition trailing_space_file : list N :=
  s "title = " ++ quoted (s "Welcome Back ") ++ s ";".

Definition trailing_space_disk : gmap (list N) entry :=
  {[ s "app/(tabs)/index.tsx" := File trailing_space_file ]}.

Definition cases_only_disk : gmap (list N) entry :=
  {[ s "app/(tabs)/cases.tsx" := File welcome_file ]}.

(** A disk where the third path of the list is a directory, and the
    fourth a file whose bytes are not UTF-8. *)
Definition locked_disk : gmap (list N) entry :=
  {[ s "features/auth/screens/RegisterScreen.tsx" := File wired_file;
     s "app/(tabs)/index.tsx" := Unreadable NoAccess;
     s "app/(tabs)/cases.tsx" := Unreadable NotUtf8 ]}.

(** The lines the script prints around the reports. *)
Definition banner_line : list N :=
  0x1F30D%N :: s " i18n Checker - Patrick Travel Services Mobile".

Definition rule_line : list N := repeat 61%N 60.

Definition complete_line : list N :=
  linefeed :: 0x2705%N :: s " Check complete!".

Definition guide_line : list N :=
  linefeed :: s "See I18N_IMPLEMENTATION.md for full translation guide".

(** What stands between the first and the last character of a string. *)
Definition interior (c : list N) : list N := take (length c - 2) (drop 1 c).

(** A key of the table that a file can make the script look up: a quoted
    escaped text that passes the filter. *)
Definition reachable_key (k : list N) : bool :=
  bool_decide (k = quoted (interior k))
    && escaped_text (interior k) && likely_ui (interior k).

(** A file with one key of the table, the one that ends in a space. *)
Definition one_key_disk : gmap (list N) entry :=
  {[ s "app/(tabs)/index.tsx" :=
       File (s "hint = " ++ quoted (s "Don't have an account? ") ++ s ";") ]}.

(** * Properties *)

(** ** Two iteration orders *)

Lemma gset_elements_NoDup l : NoDup (gset_elements l).
Proof. unfold gset_elements. apply NoDup_elements. Qed.

Lemma gset_elements_elem_of l x : x ∈ gset_elements l <-> x ∈ l.
Proof. unfold gset_elements. set_solver. Qed.

#[export] Instance gset_order : SetOrder := {|
  list_of_set := gset_elements;
  list_of_set_NoDup := gset_elements_NoDup;
  list_of_set_elem_of := gset_elements_elem_of
|}.

(** Another one: every string where [l] has it first. *)
Definition first_seen_order : SetOrder := {|
  list_of_set := remove_dups;
  list_of_set_NoDup := NoDup_remove_dups;
  list_of_set_elem_of := fun l x => elem_of_remove_dups l x
|}.


(** ** Strings *)

Lemma startswith_spec (x prefix : list N) :
  startswith x prefix = true <-> exists rest, x = prefix ++ rest.
Proof.
  revert x. induction prefix as [|p prefix IH]; intros x; cbn [startswith].
  - split; [intros _; by exists x | done].
  - destruct x as [|c x].
    + split; [done | intros [rest Hrest]; discriminate].
    + cbn [startswith]. rewrite andb_true_iff, N.eqb_eq, IH. split.
      * intros [-> [rest ->]]. by exists rest.
      * intros [rest Hrest]. injection Hrest as -> ->. eauto.
Qed.

Lemma str_in_spec (needle hay : list N) :
  str_in needle hay = true <-> exists a b, hay = a ++ needle ++ b.
Proof.
  induction hay as [|c hay IH]; cbn [str_in].
  - rewrite orb_false_r, startswith_spec. split.
    + intros [rest ->]. by exists [], rest.
    + intros [a [b H]]. symmetry in H.
      apply app_eq_nil in H as [-> H]. apply app_eq_nil in H as [-> ->].
      by exists [].
  - rewrite orb_true_iff, startswith_spec, IH. split.
    + intros [[rest ->] | [a [b ->]]].
      * by exists [], rest.
      * by exists (c :: a), b.
    + intros [[|c' a] [b H]]; simpl in H.
      * left. by exists b.
      * right. injection H as -> ->. by exists a, b.
Qed.

Lemma quoted_inj (x y : list N) : quoted x = quoted y -> x = y.
Proof.
  unfold quoted. intros H. injection H as H.
  by apply app_inj_tail in H as [-> _].
Qed.

Lemma head_startswith (x : list N) (c : N) :
  startswith x [c] = true <-> head x = Some c.
Proof.
  destruct x as [|c' x]; cbn [startswith head]; [done|].
  rewrite andb_true_r, N.eqb_eq. split; congruence.
Qed.

(** ** The matcher on the script's pattern *)

Lemma skip_plain_length (x : list N) : length (skip_plain x) <= length x.
Proof. induction x as [|c x IH]; simpl; [lia|]. destruct (plain c); simpl; lia. Qed.

Lemma body_end_suffix (x : list N) : body_end x `suffix_of` x.
Proof.
  remember (length x) as n eqn:Hn.
  assert (Hle : length x <= n) by lia. clear Hn.
  revert x Hle. induction n as [|n IH]; intros [|c x] Hle; simpl in *;
    try done; try lia.
  destruct (plain c); [apply suffix_cons_r, IH; lia|].
  destruct (c =? backslash)%N; [|done].
  destruct x as [|e x]; [done|].
  destruct (e =? linefeed)%N; [done|].
  do 2 apply suffix_cons_r. apply IH. simpl in Hle. lia.
Qed.

Lemma body_end_length (x : list N) : length (body_end x) <= length x.
Proof. apply suffix_length, body_end_suffix. Qed.

Lemma body_end_skip_plain (x : list N) : body_end (skip_plain x) = body_end x.
Proof.
  induction x as [|c x IH]; simpl; [done|].
  destruct (plain c) eqn:Hc; [done|]. simpl. by rewrite Hc.
Qed.

(** The text group 1 covers and the text left make up the input. *)
Lemma body_end_split (x : list N) :
  x = firstn (length x - length (body_end x)) x ++ body_end x.
Proof.
  destruct (body_end_suffix x) as [k Hk].
  set (b := body_end x) in *. clearbody b. subst x.
  rewrite length_app.
  replace (length k + length b - length b) with (length k) by lia.
  by rewrite take_app_length.
Qed.

Section PatternMatcher.
Context {A : Type}.
Implicit Types (k : @Re.cont A) (g : Re.captures) (x y : list N).

(** The star of the class takes the whole run: giving characters back
    cannot help a continuation that wants a delimiter. *)
Lemma star_class fuel x g k :
  length x <= fuel -> wants_delimiter k ->
  Re.star (Re.exec class) fuel x g k = k (skip_plain x) g.
Proof.
  intros Hfuel Hk. revert x Hfuel.
  induction fuel as [|fuel IH]; intros [|c x] Hfuel; simpl in Hfuel;
    try lia; try done.
  cbn [Re.star Re.exec class skip_plain]. unfold plain.
  destruct (existsb (N.eqb c) [dquote; backslash]) eqn:Hc; [done|].
  cbn [negb].
  assert (Hlt : (length x <? length (c :: x)) = true)
    by (apply Nat.ltb_lt; simpl; lia).
  rewrite Hlt, IH by lia.
  destruct (k (skip_plain x) g) eqn:Hres; [done|].
  apply Hk. unfold plain. by rewrite Hc.
Qed.

(** One round of group 2. *)
Lemma exec_round x g k :
  wants_delimiter k ->
  Re.exec round x g k =
    match x with
    | b :: e :: x' =>
        if (b =? backslash)%N && negb (e =? linefeed)%N
        then k (skip_plain x')
               (Re.capture 2 (firstn (length x - length (skip_plain x')) x) g)
        else None
    | _ => None
    end.
Proof.
  intros Hk. unfold round. cbn [Re.exec].
  destruct x as [|b [|e x']]; [done | by destruct (b =? backslash)%N |].
  destruct (b =? backslash)%N; [|done].
  destruct (e =? linefeed)%N; [done|]. cbn [andb negb].
  fold class. rewrite star_class; [done | lia |].
  intros c y g' Hc. by apply Hk.
Qed.

(** No round starts at anything else than a backslash. *)
Lemma star_round_stuck fuel x g k :
  head x <> Some backslash ->
  Re.star (Re.exec round) fuel x g k = k x g.
Proof.
  intros Hx. destruct fuel as [|fuel]; [done|].
  cbn [Re.star]. unfold round. cbn [Re.exec].
  destruct x as [|b x]; [done|].
  destruct (b =? backslash)%N eqn:Hb; [|done].
  apply N.eqb_eq in Hb. subst b. done.
Qed.

Lemma plain_not_dquote c : plain c = true -> c <> dquote.
Proof. intros Hc ->. discriminate. Qed.

Lemma plain_not_backslash c : plain c = true -> c <> backslash.
Proof. intros Hc ->. discriminate. Qed.

(** The star of group 2 takes every round there is. *)
Lemma star_rounds fuel x g k :
  length x <= fuel -> wants_quote k ->
  match x with c :: _ => plain c = false | [] => True end ->
  exists g', Re.star (Re.exec round) fuel x g k = k (body_end x) g'.
Proof.
  intros Hfuel Hk. revert x g Hfuel.
  induction fuel as [|fuel IH]; intros [|b x] g Hfuel Hx; simpl in Hfuel;
    try lia; try (by exists g).
  cbn [Re.star]. rewrite exec_round; last first.
  { intros c y g' Hc. destruct (_ <? _); [|done].
    rewrite star_round_stuck.
    - apply Hk. simpl. intros [= ->]. discriminate.
    - simpl. intros [= ->]. discriminate. }
  cbn [body_end]. rewrite Hx.
  destruct x as [|e x]; [destruct (b =? backslash)%N; by exists g|].
  destruct (b =? backslash)%N eqn:Hb; [|by exists g].
  destruct (e =? linefeed)%N; [by exists g|]. cbn [andb negb].
  pose proof (skip_plain_length x) as Hskip. simpl in Hfuel.
  assert (Hlt : (length (skip_plain x) <? length (b :: e :: x)) = true)
    by (apply Nat.ltb_lt; simpl; lia).
  rewrite Hlt.
  edestruct (IH (skip_plain x)) as [g' Hg']; [lia | | rewrite Hg'].
  { clear. induction x as [|c x IHx]; simpl; [done|].
    destruct (plain c) eqn:Hc; done. }
  rewrite body_end_skip_plain. exists g'.
  destruct (k (body_end x) g') eqn:Hres; [done|].
  apply Hk. simpl. apply N.eqb_eq in Hb. subst b. intros [=].
Qed.
End PatternMatcher.

(** A match of the pattern is a literal read by hand. *)
Lemma match_at_pattern (x : list N) :
  match literal_at x with
  | Some (i, rest) =>
      exists g, Re.match_at pattern x = Some (g, rest) /\ Re.group g 1 = i
  | None => Re.match_at pattern x = None
  end.
Proof.
  unfold Re.match_at, pattern. cbn [Re.exec].
  destruct x as [|q x]; [done|]. cbn [literal_at].
  destruct (q =? dquote)%N; [|done].
  rewrite star_class; [| lia |]; last first.
  { intros c y g Hc. rewrite star_round_stuck.
    - simpl. apply plain_not_dquote, N.eqb_neq in Hc. by rewrite Hc.
    - simpl. intros [= ->]. discriminate. }
  edestruct (star_rounds (A := Re.captures * list N)
               (length (skip_plain x)) (skip_plain x)) as [g' Hg'];
    [done | | | rewrite Hg'].
  { intros y g Hy. destruct y as [|c y]; [done|].
    destruct (c =? dquote)%N eqn:Hc; [|done].
    apply N.eqb_eq in Hc. subst c. done. }
  { clear. induction x as [|c x IHx]; simpl; [done|].
    destruct (plain c) eqn:Hc; done. }
  rewrite body_end_skip_plain.
  destruct (body_end x) as [|q' rest]; [done|].
  destruct (q' =? dquote)%N; [|done].
  eexists. split; [done|]. unfold Re.group, Re.capture. done.
Qed.

Lemma body_end_escaped (x : list N) :
  exists i, x = i ++ body_end x /\ escaped_text i = true.
Proof.
  remember (length x) as n eqn:Hn.
  assert (Hle : length x <= n) by lia. clear Hn.
  revert x Hle. induction n as [|n IH]; intros [|c x] Hle; simpl in *;
    try lia; try (by exists []).
  destruct (plain c) eqn:Hc.
  { destruct (IH x) as [i [Hi He]]; [lia|].
    exists (c :: i). simpl. rewrite Hc. split; [by f_equal | done]. }
  destruct (c =? backslash)%N eqn:Hb; [|by exists []].
  destruct x as [|e x]; [by exists []|].
  destruct (e =? linefeed)%N eqn:Hl; [by exists []|].
  destruct (IH x) as [i [Hi He]]; [simpl in Hle; lia|].
  exists (c :: e :: i). simpl. rewrite Hc, Hb, Hl. split; [by do 2 f_equal | done].
Qed.

Lemma body_end_quote (i rest : list N) :
  escaped_text i = true -> body_end (i ++ dquote :: rest) = dquote :: rest.
Proof.
  remember (length i) as n eqn:Hn.
  assert (Hle : length i <= n) by lia. clear Hn.
  revert i Hle. induction n as [|n IH]; intros [|c i] Hle He; simpl in *;
    try lia; try done.
  destruct (plain c); [apply IH; [lia | done]|].
  destruct (c =? backslash)%N; [|done].
  destruct i as [|e i]; [done|]. simpl.
  destruct (e =? linefeed)%N; [done|].
  apply IH; [simpl in Hle; lia | done].
Qed.

(** A literal is found at the front of [x] exactly when [x] starts with a
    quoted escaped text; the interior is that text. *)
Lemma literal_at_Some (x i rest : list N) :
  literal_at x = Some (i, rest) <->
  x = quoted i ++ rest /\ escaped_text i = true.
Proof.
  split.
  - destruct x as [|q x]; [done|]. cbn [literal_at].
    destruct (q =? dquote)%N eqn:Hq; [|done]. apply N.eqb_eq in Hq. subst q.
    destruct (body_end_escaped x) as [j [Hj He]].
    pose proof (body_end_split x) as Hsplit.
    destruct (body_end x) as [|q' rest'] eqn:Hb; [done|].
    destruct (q' =? dquote)%N eqn:Hq'; [|done]. apply N.eqb_eq in Hq'. subst q'.
    intros [= <- <-].
    assert (Hij : take (length x - length (dquote :: rest')) x = j).
    { clear Hsplit Hb. subst x. rewrite length_app.
      replace (length j + length (dquote :: rest') - length (dquote :: rest'))
        with (length j) by lia.
      by rewrite take_app_length. }
    cbn [length] in Hij. rewrite Hij. split; [|done].
    unfold quoted. simpl. rewrite <- app_assoc. simpl. by f_equal.
  - intros [-> He]. unfold quoted. cbn [app literal_at].
    rewrite N.eqb_refl, <- app_assoc. cbn [app].
    rewrite body_end_quote by done. rewrite N.eqb_refl.
    rewrite length_app. cbn [length].
    replace (length i + S (length rest) - S (length rest)) with (length i) by lia.
    by rewrite take_app_length.
Qed.

(** ** findall *)

Lemma findall_from_skip (r : Re.regex) (a b : list N) :
  Re.findall_from r (length a) (a ++ b) = Re.findall_from r 0 b.
Proof. induction a as [|c a IH]; [done|]. simpl. apply IH. Qed.

Lemma findall_nil_None (r : Re.regex) :
  Re.match_at r [] = None -> Re.findall r [] = [].
Proof. unfold Re.findall. simpl. by intros ->. Qed.

Lemma findall_cons_None (r : Re.regex) (c : N) (x : list N) :
  Re.match_at r (c :: x) = None -> Re.findall r (c :: x) = Re.findall r x.
Proof. unfold Re.findall. cbn [Re.findall_from]. by intros ->. Qed.

Lemma findall_cons_Some (r : Re.regex) (c : N) (m rest : list N)
    (g : Re.captures) :
  Re.match_at r (c :: m ++ rest) = Some (g, rest) ->
  Re.findall r (c :: m ++ rest)
    = (Re.group g 1, Re.group g 2) :: Re.findall r rest.
Proof.
  unfold Re.findall. cbn [Re.findall_from]. intros ->. f_equal.
  replace (length (c :: m ++ rest) - length rest - 1) with (length m)
    by (simpl; rewrite length_app; lia).
  apply findall_from_skip.
Qed.

(** ** The raw candidates of a text *)

Lemma raw_candidates_nil : raw_candidates [] = [].
Proof. reflexivity. Qed.

Lemma raw_candidates_skip (c : N) (x : list N) :
  literal_at (c :: x) = None -> raw_candidates (c :: x) = raw_candidates x.
Proof.
  intros Hlit. pose proof (match_at_pattern (c :: x)) as Hm.
  rewrite Hlit in Hm. unfold raw_candidates. by rewrite findall_cons_None.
Qed.

Lemma raw_candidates_literal (i rest : list N) :
  escaped_text i = true ->
  raw_candidates (quoted i ++ rest) = i :: raw_candidates rest.
Proof.
  intros He. pose proof (match_at_pattern (quoted i ++ rest)) as Hm.
  assert (Hlit : literal_at (quoted i ++ rest) = Some (i, rest))
    by by apply literal_at_Some.
  rewrite Hlit in Hm. destruct Hm as [g [Hm Hg]].
  unfold raw_candidates, quoted in *. cbn [app] in *.
  rewrite <- app_assoc in *. cbn [app] in *.
  replace (i ++ dquote :: rest) with ((i ++ [dquote]) ++ rest) in *
    by by rewrite <- app_assoc.
  rewrite (findall_cons_Some _ _ _ _ g) by done.
  simpl. by rewrite Hg.
Qed.

Lemma raw_candidates_no_quote (pre x : list N) :
  dquote ∉ pre -> raw_candidates (pre ++ x) = raw_candidates x.
Proof.
  induction pre as [|c pre IH]; [done|]. intros Hpre.
  apply not_elem_of_cons in Hpre as [Hc Hpre]. cbn [app].
  rewrite raw_candidates_skip; [by apply IH|].
  cbn [literal_at]. by destruct (N.eqb_spec c dquote); [congruence|].
Qed.

(** ** The filtering loop *)

Lemma likely_ui_spec (i : list N) :
  likely_ui i = true <->
  2 < length i /\ head i <> Some slash /\ head i <> Some hash.
Proof.
  unfold likely_ui.
  rewrite !andb_true_iff, !negb_true_iff, Nat.ltb_lt.
  rewrite <- !not_true_iff_false, !head_startswith. tauto.
Qed.

Lemma collect_spec (matches : list (list N * list N)) (acc : list (list N)) :
  collect matches acc
    = acc ++ (quoted <$> filter (fun i => likely_ui i = true) matches.*1).
Proof.
  revert acc. induction matches as [|[i j] matches IH]; intros acc.
  - simpl. by rewrite app_nil_r.
  - cbn [collect fmap list_fmap fst]. rewrite filter_cons.
    destruct (likely_ui i) eqn:Hi.
    + rewrite decide_True by done. rewrite IH, <- app_assoc. done.
    + rewrite decide_False by done. apply IH.
Qed.

Lemma ui_strings_of_spec (content : list N) :
  ui_strings_of content
    = quoted <$> filter (fun i => likely_ui i = true) (raw_candidates content).
Proof. unfold ui_strings_of. by rewrite collect_spec. Qed.

Lemma elem_of_ui_strings_of (content c : list N) :
  c ∈ ui_strings_of content <->
  exists i, c = quoted i /\ i ∈ raw_candidates content /\ likely_ui i = true.
Proof.
  rewrite ui_strings_of_spec, list_elem_of_fmap.
  split; intros [i [Hc Hi]]; exists i.
  - apply list_elem_of_filter in Hi. tauto.
  - split; [done|]. apply list_elem_of_filter. tauto.
Qed.

(** ** Running check_file *)

Section Runs.
Context {O : SetOrder}.

Lemma world_eta (w : world) : World (disk w) (stdout w) = w.
Proof. by destruct w. Qed.

Lemma preview_loop (strings : list (list N)) (w : world) :
  for_each strings (fun c =>
      match TRANSLATIONS !! c with
      | Some replacement => print (suggestion_line c replacement)
      | None => mret tt
      end) w
  = Ok tt (World (disk w)
       (stdout w ++ omap (fun c => suggestion_line c <$> TRANSLATIONS !! c) strings)).
Proof.
  revert w. induction strings as [|c strings IH]; intros w.
  - cbn [for_each omap list_omap]. unfold mret, M_ret.
    by rewrite app_nil_r, world_eta.
  - cbn [for_each omap list_omap]. unfold mbind, M_bind.
    destruct (TRANSLATIONS !! c) as [r|]; cbn [fmap option_fmap option_map print].
    + rewrite IH. cbn [disk stdout]. by rewrite <- app_assoc.
    + unfold mret at 1, M_ret at 1. rewrite IH. reflexivity.
Qed.

Lemma find_hardcoded_strings_file (w : world) (p text : list N) :
  disk w !! p = Some (File text) ->
  find_hardcoded_strings p w = Ok (list_of_set (ui_strings_of text)) w.
Proof.
  intros Hp. unfold find_hardcoded_strings, mbind, M_bind, open_read.
  by rewrite Hp.
Qed.

Lemma check_file_missing (w : world) (p : list N) :
  disk w !! p = None -> check_file p w = Ok tt w.
Proof.
  intros Hp. unfold check_file, mbind, M_bind, os_path_exists.
  rewrite Hp. rewrite bool_decide_false; [done|]. by intros [? ?].
Qed.

Lemma check_file_unreadable (w : world) (p : list N) (why : cause) :
  disk w !! p = Some (Unreadable why) ->
  check_file p w
  = Raise (raised why) (World (disk w) (stdout w ++ [header_line p])).
Proof.
  intros Hp. unfold check_file, mbind, M_bind, os_path_exists.
  rewrite Hp. rewrite bool_decide_true by eauto.
  cbn [negb print]. unfold open_read. cbn [disk]. by rewrite Hp.
Qed.

Lemma check_file_file (w : world) (p text : list N) :
  disk w !! p = Some (File text) ->
  check_file p w
  = Ok tt (World (disk w)
       (stdout w ++ header_line p :: marker_lines text
          ++ candidate_lines (list_of_set (ui_strings_of text)))).
Proof.
  intros Hp. unfold check_file, mbind, M_bind, os_path_exists.
  rewrite Hp. rewrite bool_decide_true by eauto.
  cbn [negb print]. unfold open_read at 1. cbn [disk]. rewrite Hp.
  unfold marker_lines.
  destruct (str_in marker text); cbn [negb print disk stdout].
  all: rewrite (find_hardcoded_strings_file _ p text) by exact Hp.
  all: unfold candidate_lines, preview_lines.
  all: destruct (list_of_set (ui_strings_of text)) as [|c strings] eqn:Hs.
  all: unfold mret, M_ret, mbind, M_bind; cbn [print disk stdout].
  all: rewrite ?preview_loop; cbn [disk stdout app].
  all: rewrite ?app_nil_r, <- ?app_assoc; reflexivity.
Qed.

(** What [check_file] prints is added to what was printed before. *)
Lemma check_file_stdout (w : world) (p : list N) :
  stdout (final (check_file p w)) = stdout w ++ report (disk w) p.
Proof.
  unfold report. destruct (disk w !! p) as [[text|why]|] eqn:Hp.
  - rewrite !check_file_file with (text := text) by done. done.
  - rewrite !(check_file_unreadable _ p why) by done. done.
  - rewrite !check_file_missing by done. simpl. by rewrite app_nil_r.
Qed.

Lemma report_file (d : gmap (list N) entry) (p text : list N) :
  d !! p = Some (File text) ->
  report d p
  = header_line p :: marker_lines text
      ++ candidate_lines (list_of_set (ui_strings_of text)).
Proof. intros Hp. unfold report. by rewrite check_file_file with (text := text). Qed.

(** [check_file] leaves the disk as it found it, whatever happens. *)
Lemma check_file_disk (w : world) (p : list N) :
  disk (final (check_file p w)) = disk w.
Proof.
  destruct (disk w !! p) as [[text|why]|] eqn:Hp.
  - by rewrite check_file_file with (text := text).
  - by rewrite (check_file_unreadable w p why).
  - by rewrite check_file_missing.
Qed.

End Runs.

(** ** Iteration orders *)

Section Orders.
Context {O : SetOrder}.

Lemma list_of_set_length (l : list (list N)) :
  length (list_of_set l) = length (remove_dups l).
Proof.
  apply Permutation_length, NoDup_Permutation.
  - apply list_of_set_NoDup.
  - apply NoDup_remove_dups.
  - intros x. by rewrite list_of_set_elem_of, elem_of_remove_dups.
Qed.

Lemma list_of_set_nil : list_of_set [] = [].
Proof.
  destruct (list_of_set []) as [|x l] eqn:Hl; [done|].
  assert (Hx : x ∈ @nil (list N))
    by (apply list_of_set_elem_of; rewrite Hl; left).
  by apply elem_of_nil in Hx.
Qed.

(** A list that repeats one string makes a set of one string, which can
    be iterated in one order only. *)
Lemma list_of_set_one (l : list (list N)) (x : list N) :
  (forall y, y ∈ l <-> y = x) -> list_of_set l = [x].
Proof.
  intros Hl. pose proof (list_of_set_NoDup l) as Hnd.
  assert (Hin : forall y, y ∈ list_of_set l <-> y = x).
  { intros y. by rewrite list_of_set_elem_of. }
  destruct (list_of_set l) as [|a l'].
  - exfalso. eapply not_elem_of_nil. by apply Hin.
  - assert (a = x) as -> by (apply Hin; left).
    destruct l' as [|b l']; [done|].
    assert (b = x) as -> by (apply Hin; right; left).
    apply NoDup_cons in Hnd as [Hnd _]. exfalso. apply Hnd. left.
Qed.

Lemma list_of_set_once (l : list (list N)) (x : list N) :
  x ∈ l -> length (filter (fun y => y = x) (list_of_set l)) = 1.
Proof.
  intros Hx. apply (proj2 (list_of_set_elem_of _ _)) in Hx.
  pose proof (list_of_set_NoDup l) as Hnd.
  induction Hnd as [|a k Ha Hnd IH]; [by apply elem_of_nil in Hx|].
  rewrite filter_cons. destruct (decide (a = x)) as [->|Hne].
  - simpl. f_equal. clear IH Hx Hnd. induction k as [|b k IHk]; [done|].
    apply not_elem_of_cons in Ha as [Hb Ha].
    rewrite filter_cons, decide_False by done. by apply IHk.
  - apply IH. by apply elem_of_cons in Hx as [->|Hx].
Qed.

End Orders.

(** ** The lines of a report *)

Lemma suggestion_line_inj (c r k v : list N) :
  arrow ∉ k -> arrow ∉ v ->
  suggestion_line c r = suggestion_line k v -> c = k /\ r = v.
Proof.
  intros Hk Hv. unfold suggestion_line. intros H.
  apply app_inv_head in H.
  assert (Hsplit : forall a a' b b' : list N,
    arrow ∉ a' -> arrow ∉ b' ->
    a ++ arrow :: b = a' ++ arrow :: b' -> a = a' /\ b = b').
  { clear. intros a. induction a as [|y a IH]; intros [|y' a'] b b' Ha' Hb' H;
      simpl in H.
    - by injection H as ->.
    - injection H as <- _. exfalso. apply Ha'. left.
    - injection H as -> <-. exfalso. apply Hb'. apply elem_of_app. right. left.
    - injection H as -> H. apply not_elem_of_cons in Ha' as [_ Ha'].
      destruct (IH a' b b' Ha' Hb' H) as [-> ->]. done. }
  destruct (Hsplit (c ++ [32%N]) (k ++ [32%N]) (32%N :: r) (32%N :: v)) as [H1 H2].
  - rewrite elem_of_app, list_elem_of_singleton. intros [?|[=]]. done.
  - rewrite elem_of_cons. intros [[=]|?]. done.
  - rewrite <- !app_assoc. exact H.
  - apply app_inj_tail in H1 as [-> _]. by injection H2 as ->.
Qed.

(** Neither a key nor a replacement of the table holds the arrow that a
    suggestion line puts between them. *)
Lemma TRANSLATIONS_no_arrow (k v : list N) :
  (k, v) ∈ TRANSLATIONS_entries -> (arrow ∉ k) /\ (arrow ∉ v).
Proof.
  revert k v.
  assert (H : Forall (fun kv => (arrow ∉ kv.1) /\ (arrow ∉ kv.2))
                TRANSLATIONS_entries).
  { apply (bool_decide_unpack _). vm_compute. exact I. }
  intros k v Hkv. by apply (proj1 (Forall_forall _ _) H (k, v)).
Qed.

Lemma TRANSLATIONS_keys_NoDup : NoDup TRANSLATIONS_entries.*1.
Proof. apply (bool_decide_unpack _). vm_compute. exact I. Qed.

(** Looking a string up in the dictionary is finding the pair in the
    table as the script writes it. *)
Lemma TRANSLATIONS_lookup (c r : list N) :
  TRANSLATIONS !! c = Some r <-> (c, r) ∈ TRANSLATIONS_entries.
Proof.
  with_strategy transparent [TRANSLATIONS] unfold TRANSLATIONS. symmetry.
  apply elem_of_list_to_map, TRANSLATIONS_keys_NoDup.
Qed.

Lemma elem_of_preview_lines (strings : list (list N)) (line : list N) :
  line ∈ preview_lines strings <->
  exists c r, c ∈ take 5 strings /\ TRANSLATIONS !! c = Some r
              /\ line = suggestion_line c r.
Proof.
  unfold preview_lines. rewrite list_elem_of_omap. split.
  - intros [c [Hc Hline]].
    destruct (TRANSLATIONS !! c) as [r|] eqn:Hr; [|discriminate Hline].
    injection Hline as <-. exists c, r. repeat split; [exact Hc | exact Hr].
  - intros [c [r [Hc [Hr ->]]]]. exists c. split; [exact Hc|].
    rewrite Hr. reflexivity.
Qed.

Lemma preview_lines_length (strings : list (list N)) :
  length (preview_lines strings) <= 5.
Proof.
  unfold preview_lines.
  assert (H : forall l : list (list N),
            length (omap (fun c => suggestion_line c <$> TRANSLATIONS !! c) l)
            <= length l).
  { induction l as [|c l IH]; [done|]. cbn [omap list_omap].
    destruct (_ <$> _); cbn [length]; lia. }
  etransitivity; [apply H|]. rewrite length_take. lia.
Qed.

Lemma line_start_header p : line_start (header_line p) = [10; 0x1F4C4; 32]%N.
Proof. reflexivity. Qed.
Lemma line_start_missing_import : line_start missing_import_line = [32; 32; 0x274C]%N.
Proof. reflexivity. Qed.
Lemma line_start_missing_hook : line_start missing_hook_line = [32; 32; 0x274C]%N.
Proof. reflexivity. Qed.
Lemma line_start_imported : line_start imported_line = [32; 32; 0x2705]%N.
Proof. reflexivity. Qed.
Lemma line_start_found n : line_start (found_line n) = [32; 32; 70]%N.
Proof. reflexivity. Qed.
Lemma line_start_suggestion c r : line_start (suggestion_line c r) = [32; 32; 32]%N.
Proof. reflexivity. Qed.

(** Every line of a report is of one of four kinds. *)
Lemma elem_of_report {O : SetOrder} (d : gmap (list N) entry) (p line : list N) :
  line ∈ report d p ->
  line = header_line p
  \/ (exists text, d !! p = Some (File text) /\ line ∈ marker_lines text)
  \/ (exists n, line = found_line n)
  \/ (exists text, d !! p = Some (File text) /\
        line ∈ preview_lines (list_of_set (ui_strings_of text))).
Proof.
  destruct (d !! p) as [[text|why]|] eqn:Hp.
  - rewrite (report_file d p text Hp).
    rewrite elem_of_cons, elem_of_app. intros [->|[Hm|Hc]]; [by left | |].
    + right. left. by exists text.
    + unfold candidate_lines in Hc.
      destruct (list_of_set (ui_strings_of text)) as [|c strings] eqn:Hs;
        [by apply elem_of_nil in Hc|].
      apply elem_of_cons in Hc as [->|Hc]; [right; right; left; eauto|].
      right. right. right. exists text. by rewrite Hs.
  - unfold report. rewrite (check_file_unreadable _ p why) by exact Hp.
    cbn [final stdout app]. rewrite list_elem_of_singleton. by left.
  - unfold report. rewrite check_file_missing by exact Hp.
    cbn [final stdout]. by intros ?%elem_of_nil.
Qed.

(** * The claims *)

(** ** C1 *)



(** ** C2 *)

(** C2, as stated, fails on a file without candidates: the report of an
    empty file is its path and the two marker lines, and no count line
    at all. *)
Lemma report_without_count_counterexample :
  report (O := gset_order) empty_disk (s "app/(tabs)/index.tsx")
  = [ header_line (s "app/(tabs)/index.tsx");
      missing_import_line; missing_hook_line ]
  /\ ~ (exists n, found_line n ∈
          report (O := gset_order) empty_disk (s "app/(tabs)/index.tsx")).
Proof.
  assert (H : report (O := gset_order) empty_disk (s "app/(tabs)/index.tsx")
              = [ header_line (s "app/(tabs)/index.tsx");
                  missing_import_line; missing_hook_line ])
    by by vm_compute.
  split; [exact H|]. rewrite H. intros [n Hn].
  rewrite !elem_of_cons, elem_of_nil in Hn.
  destruct Hn as [Hn|[Hn|[Hn|[]]]];
    apply (f_equal line_start) in Hn; rewrite line_start_found in Hn;
    discriminate Hn.
Qed.

(** C2, amended: for every existing input file the report is the file
    path, then the marker finding(s), then, when there is at least one
    candidate, the count of distinct filtered candidates, then the
    suggestion lines of those among the first five candidates in iteration
    order that are keys of the table, in that order; the other candidates
    get no line, and a file without candidates gets no count line. *)
Theorem report_layout (O : SetOrder) (d : gmap (list N) entry)
    (p text : list N) :
  d !! p = Some (File text) ->
  let strings := list_of_set (ui_strings_of text) in
  report d p
  = [header_line p] ++ marker_lines text
      ++ (if decide (strings = []) then []
          else [found_line (length (remove_dups (ui_strings_of text)))])
      ++ omap (fun c => suggestion_line c <$> TRANSLATIONS !! c) (take 5 strings)
  /\ (marker_lines text = [imported_line]
      \/ marker_lines text = [missing_import_line; missing_hook_line])
  /\ length (omap (fun c => suggestion_line c <$> TRANSLATIONS !! c)
               (take 5 strings)) <= 5
  /\ (forall c, TRANSLATIONS !! c = None ->
        forall r, suggestion_line c r ∉ report d p).
Proof.
  intros Hp strings. split; [|split; [|split]].
  - rewrite (report_file d p text Hp). fold strings.
    cbn [app]. f_equal. f_equal. unfold candidate_lines, preview_lines.
    rewrite <- list_of_set_length. fold strings.
    by destruct strings.
  - unfold marker_lines. destruct (str_in marker text); eauto.
  - apply preview_lines_length.
  - intros c Hc r Hin. apply elem_of_report in Hin as [H|[H|[H|H]]].
    + apply (f_equal line_start) in H. discriminate H.
    + destruct H as [text' [_ H]]. unfold marker_lines in H.
      destruct (str_in marker text');
        rewrite ?elem_of_cons, elem_of_nil in H;
        repeat destruct H as [H|H]; try done;
        apply (f_equal line_start) in H; discriminate H.
    + destruct H as [n H]. apply (f_equal line_start) in H. discriminate H.
    + destruct H as [text' [_ H]].
      apply elem_of_preview_lines in H as [k [v [_ [Hk H]]]].
      apply TRANSLATIONS_lookup in Hk.
      destruct (TRANSLATIONS_no_arrow k v Hk) as [Hak Hav].
      apply suggestion_line_inj in H as [-> ->]; [|exact Hak|exact Hav].
      apply TRANSLATIONS_lookup in Hk. rewrite Hc in Hk. discriminate Hk.
Qed.

Lemma report_layout_witness :
  let strings := list_of_set (SetOrder := first_seen_order)
                   (ui_strings_of two_literals_file) in
  report (O := first_seen_order) two_literals_disk (s "app/(tabs)/index.tsx")
  = [header_line (s "app/(tabs)/index.tsx")] ++ marker_lines two_literals_file
      ++ (if decide (strings = []) then []
          else [found_line (length (remove_dups (ui_strings_of two_literals_file)))])
      ++ omap (fun c => suggestion_line c <$> TRANSLATIONS !! c) (take 5 strings)
  /\ (marker_lines two_literals_file = [imported_line]
      \/ marker_lines two_literals_file = [missing_import_line; missing_hook_line])
  /\ length (omap (fun c => suggestion_line c <$> TRANSLATIONS !! c)
               (take 5 strings)) <= 5
  /\ (forall c, TRANSLATIONS !! c = None ->
        forall r, suggestion_line c r ∉
          report (O := first_seen_order) two_literals_disk
            (s "app/(tabs)/index.tsx")).
Proof.
  apply (report_layout first_seen_order two_literals_disk
           (s "app/(tabs)/index.tsx") two_literals_file).
  vm_compute. reflexivity.
Defined.

(** ** C3 *)

(** C3: for every existing input file, if the marker useTranslation occurs
    nowhere in the text, the report has both the missing-import and the
    missing-hook line; if it occurs anywhere, the report has neither. *)
Theorem marker_lines_in_report (O : SetOrder) (d : gmap (list N) entry)
    (p text : list N) :
  d !! p = Some (File text) ->
  (~ (exists before after, text = before ++ marker ++ after) ->
     missing_import_line ∈ report d p /\ missing_hook_line ∈ report d p)
  /\ ((exists before after, text = before ++ marker ++ after) ->
     (missing_import_line ∉ report d p) /\ (missing_hook_line ∉ report d p)).
Proof.
  intros Hp. rewrite <- (str_in_spec marker text). split.
  - intros Hno. apply not_true_is_false in Hno.
    rewrite (report_file d p text Hp). unfold marker_lines. rewrite Hno.
    split; [right; left | right; right; left].
  - intros Hyes.
    assert (Hline : forall line, line_start line = [32; 32; 0x274C]%N ->
                      line ∉ report d p).
    { intros line Hstart Hin.
      apply elem_of_report in Hin as [H|[H|[H|H]]].
      - rewrite H in Hstart. discriminate Hstart.
      - destruct H as [text' [Hp' H]].
        assert (text' = text) as -> by congruence.
        unfold marker_lines in H. rewrite Hyes in H.
        apply list_elem_of_singleton in H. rewrite H in Hstart.
        discriminate Hstart.
      - destruct H as [n H]. rewrite H in Hstart. discriminate Hstart.
      - destruct H as [text' [_ H]].
        apply elem_of_preview_lines in H as [c [r [_ [_ H]]]].
        rewrite H in Hstart. discriminate Hstart. }
    split; by apply Hline.
Qed.

Lemma marker_lines_in_report_witness :
  (missing_import_line
     ∈ report (O := gset_order) wired_disk (s "app/(tabs)/index.tsx")
   /\ missing_hook_line
     ∈ report (O := gset_order) wired_disk (s "app/(tabs)/index.tsx"))
  /\ ((missing_import_line
         ∉ report (O := gset_order) wired_disk (s "app/(tabs)/cases.tsx"))
      /\ (missing_hook_line
         ∉ report (O := gset_order) wired_disk (s "app/(tabs)/cases.tsx"))).
Proof.
  split.
  - apply (marker_lines_in_report gset_order wired_disk
             (s "app/(tabs)/index.tsx") welcome_file); [by vm_compute|].
    rewrite <- (str_in_spec marker welcome_file). by vm_compute.
  - apply (marker_lines_in_report gset_order wired_disk
             (s "app/(tabs)/cases.tsx") wired_file); [by vm_compute|].
    rewrite <- (str_in_spec marker wired_file). by vm_compute.
Defined.

(** ** C4 *)

(** C4: whatever the file holds, a candidate whose interior has at most
    two characters, or starts with a slash or a hash, is never in the
    result of find_hardcoded_strings, and every other raw candidate is in
    it. *)
Theorem filter_of_candidates (O : SetOrder) (w : world) (p text : list N) :
  disk w !! p = Some (File text) ->
  exists strings,
    find_hardcoded_strings p w = Ok strings w
    /\ (forall i,
          length i <= 2 \/ head i = Some slash \/ head i = Some hash ->
          quoted i ∉ strings)
    /\ (forall i,
          i ∈ raw_candidates text ->
          2 < length i -> head i <> Some slash -> head i <> Some hash ->
          quoted i ∈ strings).
Proof.
  intros Hp. exists (list_of_set (ui_strings_of text)).
  split; [by apply find_hardcoded_strings_file|]. split.
  - intros i Hbad Hin. apply (proj1 (list_of_set_elem_of _ _)) in Hin.
    apply elem_of_ui_strings_of in Hin as [j [Hq [_ Hj]]].
    apply quoted_inj in Hq. subst j.
    apply likely_ui_spec in Hj as [Hlen [Hslash Hhash]].
    destruct Hbad as [?|[?|?]]; [lia | done | done].
  - intros i Hraw Hlen Hslash Hhash. apply (proj2 (list_of_set_elem_of _ _)).
    apply elem_of_ui_strings_of. exists i.
    split; [done|]. split; [done|]. by apply likely_ui_spec.
Qed.

Lemma filter_of_candidates_witness :
  exists strings,
    find_hardcoded_strings (O := gset_order) (s "app/(tabs)/index.tsx")
      (World mixed_disk []) = Ok strings (World mixed_disk [])
    /\ (forall i,
          length i <= 2 \/ head i = Some slash \/ head i = Some hash ->
          quoted i ∉ strings)
    /\ (forall i,
          i ∈ raw_candidates mixed_file ->
          2 < length i -> head i <> Some slash -> head i <> Some hash ->
          quoted i ∈ strings).
Proof.
  apply (filter_of_candidates gset_order (World mixed_disk [])
           (s "app/(tabs)/index.tsx") mixed_file).
  vm_compute. reflexivity.
Defined.

(** ** Where a scan ends *)

Lemma outside_from_skip (a b : list N) :
  outside_from (length a) (a ++ b) = outside_from 0 b.
Proof. induction a as [|c a IH]; [done|]. cbn [length app outside_from]. apply IH. Qed.

(** Where group 1 stops on a double quote, or on a backslash and a line
    feed, it stops whatever follows the text. *)
Lemma body_end_app (x y z : list N) :
  body_end x = y -> y <> [] -> y <> [backslash] ->
  body_end (x ++ z) = y ++ z.
Proof.
  remember (length x) as n eqn:Hn.
  assert (Hle : length x <= n) by lia. clear Hn.
  revert x Hle. induction n as [|n IH]; intros [|c x] Hle Hy Hnil Hbs;
    cbn [length] in Hle; try lia; try (cbn in Hy; congruence).
  cbn [app body_end] in *.
  destruct (plain c); [apply IH; [lia | done..]|].
  destruct (c =? backslash)%N eqn:Hc; [|by subst y].
  destruct x as [|e x]; [apply N.eqb_eq in Hc; subst; done|].
  cbn [app]. destruct (e =? linefeed)%N; [by subst y|].
  apply IH; [cbn [length] in Hle; lia | done..].
Qed.

(** Group 1 stops at a double quote or at a backslash only. *)
Lemma body_end_head (x rest : list N) (q : N) :
  body_end x = q :: rest -> q = dquote \/ q = backslash.
Proof.
  remember (length x) as n eqn:Hn.
  assert (Hle : length x <= n) by lia. clear Hn.
  revert x Hle. induction n as [|n IH]; intros [|c x] Hle Hq;
    cbn [length] in Hle; try lia; try (cbn in Hq; congruence).
  cbn [body_end] in Hq. destruct (plain c) eqn:Hp; [apply (IH x); [lia|done]|].
  assert (Hc : c = dquote \/ c = backslash).
  { unfold plain in Hp. cbn [existsb] in Hp.
    destruct (N.eqb_spec c dquote); [by left|].
    destruct (N.eqb_spec c backslash); [by right|]. discriminate Hp. }
  destruct (c =? backslash)%N; [|injection Hq as <- _; exact Hc].
  destruct x as [|e x]; [injection Hq as <- _; exact Hc|].
  destruct (e =? linefeed)%N; [injection Hq as <- _; exact Hc|].
  apply (IH x); [cbn [length] in Hle; lia | done].
Qed.

Lemma escaped_text_app (a b : list N) :
  escaped_text a = true -> escaped_text b = true ->
  escaped_text (a ++ b) = true.
Proof.
  remember (length a) as n eqn:Hn.
  assert (Hle : length a <= n) by lia. clear Hn.
  revert a Hle. induction n as [|n IH]; intros [|c a] Hle Ha Hb;
    cbn [length] in Hle; try lia; try done.
  cbn [app escaped_text] in *.
  destruct (plain c); [apply IH; [lia | done..]|].
  destruct (c =? backslash)%N; [|done].
  destruct a as [|e a]; [done|]. cbn [app].
  apply andb_true_iff in Ha as [He Ha]. rewrite He. cbn [andb].
  apply IH; [cbn [length] in Hle; lia | done..].
Qed.

(** How the scan of a text that is not empty starts: with a character
    at which no literal starts, whatever follows the text; with a literal
    closed in the text; or with a double quote whose literal runs to the
    end of the text, ending there or on a backslash. *)
Lemma outside_inv (c : N) (t : list N) :
  ((forall x, literal_at (c :: t ++ x) = None)
   /\ outside (c :: t) = outside t)
  \/ (exists i rest, c :: t = quoted i ++ rest /\ escaped_text i = true
        /\ outside (c :: t) = outside rest)
  \/ (c = dquote /\ escaped_text t = true /\ outside (c :: t) = false)
  \/ (exists i, c = dquote /\ t = i ++ [backslash] /\ escaped_text i = true
        /\ outside (c :: t) = false).
Proof.
  unfold outside. cbn [outside_from literal_at app].
  destruct (N.eqb_spec c dquote) as [->|Hc]; [|left; by split].
  destruct (body_end_escaped t) as [i [Ht Hi]].
  destruct (body_end t) as [|q rest] eqn:Hb.
  - right. right. left. rewrite app_nil_r in Ht. by subst i.
  - destruct (N.eqb_spec q dquote) as [->|Hq].
    + right. left. exists i, rest. split; [|split; [exact Hi|]].
      * unfold quoted. cbn [app]. rewrite <- app_assoc. cbn [app]. by f_equal.
      * rewrite Ht at 1 2. rewrite length_app. cbn [length].
        replace (length i + S (length rest) - length rest)
          with (length (i ++ [dquote]))
          by (rewrite length_app; cbn [length]; lia).
        replace (i ++ dquote :: rest) with ((i ++ [dquote]) ++ rest)
          by by rewrite <- app_assoc.
        apply outside_from_skip.
    + assert (q = backslash) as ->.
      { destruct (body_end_head t rest q Hb) as [?|?]; [done|assumption]. }
      destruct rest as [|e rest].
      * right. right. right. exists i. by repeat split.
      * left. split; [|reflexivity]. intros x.
        rewrite (body_end_app t (backslash :: e :: rest) x Hb) by done.
        cbn [app]. reflexivity.
Qed.

(** When the scan of [before] ends outside every literal, what follows
    [before] is scanned as if it stood alone. *)
Lemma raw_candidates_outside (before x : list N) :
  outside before = true ->
  raw_candidates (before ++ x) = raw_candidates before ++ raw_candidates x.
Proof.
  remember (length before) as n eqn:Hn.
  assert (Hle : length before <= n) by lia. clear Hn.
  revert before Hle. induction n as [|n IH]; intros [|c t] Hle Hout;
    cbn [length] in Hle; try lia; try done.
  destruct (outside_inv c t) as [[Hnone Ho]|[[i [rest [Hq [Hi Ho]]]]|[H|H]]].
  - cbn [app]. rewrite (raw_candidates_skip c (t ++ x)) by apply Hnone.
    rewrite (raw_candidates_skip c t)
      by (rewrite <- (app_nil_r t); apply Hnone).
    apply IH; [lia | congruence].
  - rewrite Hq, <- app_assoc, !raw_candidates_literal by exact Hi.
    cbn [app]. f_equal. apply IH; [|congruence].
    apply (f_equal length) in Hq. unfold quoted in Hq.
    cbn [length app] in Hq. rewrite !length_app in Hq. lia.
  - destruct H as [_ [_ H]]. congruence.
  - destruct H as [i [_ [_ [_ H]]]]. congruence.
Qed.

(** When it ends inside a literal, that literal takes the opening quote
    of a literal put right after [before]. *)
Lemma raw_candidates_inside (before i after : list N) :
  outside before = false -> escaped_text i = true ->
  exists pre j rest found,
    before ++ quoted i ++ after = pre ++ quoted j ++ rest
    /\ length pre < length before < length pre + length (quoted j)
    /\ escaped_text j = true
    /\ raw_candidates (before ++ quoted i ++ after)
       = found ++ j :: raw_candidates rest.
Proof.
  intros Hout Hi. revert Hout.
  assert (Hle : length before <= length before) by lia. revert Hle.
  generalize (length before) at 2. intros n. revert before.
  induction n as [|n IH]; intros [|c t] Hle Hout;
    cbn [length] in Hle; try lia; try done.
  destruct (outside_inv c t) as [[Hnone Ho]|[[i0 [rest0 [Hq [Hi0 Ho]]]]|[H|H]]].
  - destruct (IH t) as [pre [j [rest [found [Heq [Hlen [Hj Hraw]]]]]]];
      [lia | congruence |].
    exists (c :: pre), j, rest, found. cbn [app length].
    split; [by rewrite Heq|]. split; [lia|]. split; [exact Hj|].
    rewrite raw_candidates_skip by apply Hnone. exact Hraw.
  - assert (Hlen0 : length (c :: t) = length (quoted i0) + length rest0)
      by (rewrite Hq; apply length_app).
    destruct (IH rest0) as [pre [j [rest [found [Heq [Hlen [Hj Hraw]]]]]]];
      [cbn [length] in Hlen0; unfold quoted in Hlen0;
       cbn [length] in Hlen0; lia | congruence |].
    exists (quoted i0 ++ pre), j, rest, (i0 :: found).
    rewrite Hq, <- !app_assoc, Heq. split; [reflexivity|].
    split; [rewrite !length_app; lia|]. split; [exact Hj|].
    rewrite <- Heq, raw_candidates_literal by exact Hi0.
    cbn [app]. by rewrite Hraw.
  - destruct H as [-> [Ht _]].
    exists [], t, (i ++ [dquote] ++ after), [].
    unfold quoted. cbn [app length]. rewrite !length_app. cbn [length].
    split; [by rewrite <- !app_assoc|]. split; [lia|]. split; [exact Ht|].
    transitivity (raw_candidates (quoted t ++ i ++ [dquote] ++ after)).
    + f_equal. unfold quoted. cbn [app]. by rewrite <- !app_assoc.
    + by rewrite raw_candidates_literal.
  - destruct H as [i0 [-> [-> [Hi0 _]]]].
    assert (Hj : escaped_text (i0 ++ [backslash; dquote] ++ i) = true).
    { apply escaped_text_app; [exact Hi0|].
      apply (escaped_text_app [backslash; dquote] i); [reflexivity | exact Hi]. }
    exists [], (i0 ++ [backslash; dquote] ++ i), after, [].
    unfold quoted. cbn [app length]. rewrite ?length_app. cbn [length].
    rewrite ?length_app. cbn [length].
    split; [by rewrite <- !app_assoc|]. split; [lia|]. split; [exact Hj|].
    transitivity
      (raw_candidates (quoted (i0 ++ [backslash; dquote] ++ i) ++ after)).
    + f_equal. unfold quoted. cbn [app]. by rewrite <- !app_assoc.
    + by rewrite raw_candidates_literal.
Qed.

Lemma outside_no_quote (before : list N) :
  dquote ∉ before -> outside before = true.
Proof.
  unfold outside. induction before as [|c before IH]; [done|].
  intros [Hc Hb]%not_elem_of_cons. cbn [outside_from].
  destruct (N.eqb_spec c dquote); [done|]. by apply IH.
Qed.

(** ** C5 *)

(** C5, as stated, fails twice.  A backslash followed by a line feed is
    not an escaped unit, since the dot of the pattern matches no line
    feed: no candidate is extracted from the continued literal.  And a
    text may contain the literal of the claim without its interior being
    extracted, when a double quote before it pairs up with its opening
    quote. *)
Lemma escaped_unit_counterexample :
  raw_candidates continued_literal = []
  /\ raw_candidates after_lone_quote
     = [ s "'; const m = "; s "hi" ++ [backslash; dquote] ].
Proof. split; by vm_compute. Qed.

(** C5, amended: extraction treats a backslash followed by any character
    other than a line feed as a single escaped unit.  Where the scan of
    the text before it ends outside every literal, as it does when every
    double quote before it belongs to a complete earlier literal or opens
    nothing, and so when there is none, a quoted text made of plain
    characters and such units is extracted whole, after the candidates of
    the text before it; so the literal of the claim yields the interior
    She said \"hi\" with both escaped quotes, and not a span ending at the
    first embedded quote.  Where the scan ends inside a literal, that
    literal takes the opening quote of the literal of the claim. *)
Theorem escaped_units_extracted (before after : list N) :
  (forall c, c <> linefeed -> escaped_text [backslash; c] = true)
  /\ (outside before = true ->
      (forall i, escaped_text i = true ->
         raw_candidates (before ++ quoted i ++ after)
         = raw_candidates before ++ i :: raw_candidates after)
      /\ raw_candidates (before ++ quoted she_said ++ after)
         = raw_candidates before ++ she_said :: raw_candidates after)
  /\ (dquote ∉ before -> outside before = true /\ raw_candidates before = [])
  /\ (outside before = false ->
      forall i, escaped_text i = true ->
      exists pre j rest found,
        before ++ quoted i ++ after = pre ++ quoted j ++ rest
        /\ length pre < length before < length pre + length (quoted j)
        /\ escaped_text j = true
        /\ raw_candidates (before ++ quoted i ++ after)
           = found ++ j :: raw_candidates rest).
Proof.
  split; [|split; [|split]].
  - intros c Hc. cbn [escaped_text]. change (plain backslash) with false.
    cbn match. rewrite N.eqb_refl. apply N.eqb_neq in Hc. by rewrite Hc.
  - intros Hout.
    assert (Hgen : forall i, escaped_text i = true ->
              raw_candidates (before ++ quoted i ++ after)
              = raw_candidates before ++ i :: raw_candidates after).
    { intros i Hi. rewrite raw_candidates_outside by exact Hout.
      by rewrite raw_candidates_literal. }
    split; [exact Hgen|]. apply Hgen. vm_compute. reflexivity.
  - intros Hq. split; [by apply outside_no_quote|].
    rewrite <- (app_nil_r before). by rewrite raw_candidates_no_quote.
  - intros Hout i Hi. by apply raw_candidates_inside.
Qed.

Lemma escaped_units_extracted_witness :
  outside after_import = true
  /\ raw_candidates (after_import ++ quoted she_said ++ s ";")
     = raw_candidates after_import ++ she_said :: raw_candidates (s ";")
  /\ raw_candidates (after_import ++ quoted she_said ++ s ";")
     = [s "react"; she_said].
Proof.
  assert (Hout : outside after_import = true) by (vm_compute; reflexivity).
  split; [exact Hout|]. split; [|vm_compute; reflexivity].
  destruct (escaped_units_extracted after_import (s ";")) as [_ [H _]].
  apply (H Hout).
Defined.

(** ** C6 *)

(** A suggestion line in a report comes from one of the first five
    candidates of the file and from its entry in the dictionary. *)
Lemma suggestion_in_report {O : SetOrder} (d : gmap (list N) entry)
    (p c r : list N) :
  suggestion_line c r ∈ report d p ->
  exists text, d !! p = Some (File text)
    /\ c ∈ take 5 (list_of_set (ui_strings_of text))
    /\ TRANSLATIONS !! c = Some r.
Proof.
  intros Hin. apply elem_of_report in Hin as [H|[H|[H|H]]].
  - apply (f_equal line_start) in H. discriminate H.
  - destruct H as [text [_ H]]. unfold marker_lines in H.
    destruct (str_in marker text);
      rewrite ?elem_of_cons, elem_of_nil in H;
      repeat destruct H as [H|H]; try done;
      apply (f_equal line_start) in H; discriminate H.
  - destruct H as [n H]. apply (f_equal line_start) in H. discriminate H.
  - destruct H as [text [Hp H]]. exists text. split; [done|].
    apply elem_of_preview_lines in H as [k [v [Hin [Hk H]]]].
    pose proof Hk as Hkv. apply TRANSLATIONS_lookup in Hkv.
    destruct (TRANSLATIONS_no_arrow k v Hkv) as [Hak Hav].
    apply suggestion_line_inj in H as [-> ->]; [|exact Hak|exact Hav].
    split; [exact Hin | exact Hk].
Qed.

(** C6: the lookup is exact.  A suggestion line is printed for a candidate
    only when the candidate, quotes included, is character for character a
    key of the table, and then with that key's replacement; a candidate
    that differs from every key, be it by one trailing space, gets no
    suggestion line. *)
Theorem lookup_is_exact (O : SetOrder) (d : gmap (list N) entry) (p : list N) :
  (forall c r, suggestion_line c r ∈ report d p ->
     (c, r) ∈ TRANSLATIONS_entries)
  /\ (forall c, (forall k r, (k, r) ∈ TRANSLATIONS_entries -> c <> k) ->
        forall r, suggestion_line c r ∉ report d p)
  /\ (forall r, suggestion_line (quoted (s "Welcome Back ")) r ∉ report d p).
Proof.
  assert (H1 : forall c r, suggestion_line c r ∈ report d p ->
                 (c, r) ∈ TRANSLATIONS_entries).
  { intros c r Hin. apply suggestion_in_report in Hin as [text [_ [_ Hc]]].
    by apply TRANSLATIONS_lookup. }
  assert (H2 : forall c, (forall k r, (k, r) ∈ TRANSLATIONS_entries -> c <> k) ->
                 forall r, suggestion_line c r ∉ report d p).
  { intros c Hc r Hin. by apply (Hc c r (H1 c r Hin)). }
  split; [exact H1|]. split; [exact H2|].
  apply H2. intros k r Hkr Heq. subst k.
  assert (Hnone : TRANSLATIONS !! quoted (s "Welcome Back ") = None)
    by (vm_compute; reflexivity).
  apply TRANSLATIONS_lookup in Hkr. rewrite Hnone in Hkr. discriminate Hkr.
Qed.

Lemma lookup_is_exact_witness :
  report (O := gset_order) trailing_space_disk (s "app/(tabs)/index.tsx")
  = [ header_line (s "app/(tabs)/index.tsx");
      missing_import_line; missing_hook_line; found_line 1 ]
  /\ (forall r, suggestion_line (quoted (s "Welcome Back ")) r ∉
        report (O := gset_order) trailing_space_disk (s "app/(tabs)/index.tsx")).
Proof.
  split; [by vm_compute|].
  apply (lookup_is_exact gset_order trailing_space_disk
           (s "app/(tabs)/index.tsx")).
Defined.

(** ** C7 *)

(** C7: the result of find_hardcoded_strings has no duplicates: a literal
    that passes the filter is in it once however often the file repeats
    it, and the count the report shows is the number of distinct filtered
    candidates. *)
Theorem candidates_are_distinct (O : SetOrder) (w : world) (p text : list N) :
  disk w !! p = Some (File text) ->
  exists strings,
    find_hardcoded_strings p w = Ok strings w
    /\ NoDup strings
    /\ (forall c, c ∈ ui_strings_of text ->
          length (filter (fun y => y = c) strings) = 1)
    /\ length strings = length (remove_dups (ui_strings_of text))
    /\ (strings <> [] ->
        found_line (length (remove_dups (ui_strings_of text)))
          ∈ report (disk w) p).
Proof.
  intros Hp. exists (list_of_set (ui_strings_of text)).
  split; [by apply find_hardcoded_strings_file|].
  split; [apply list_of_set_NoDup|].
  split; [intros c Hc; by apply list_of_set_once|].
  split; [apply list_of_set_length|].
  intros Hne. rewrite (report_file (disk w) p text Hp).
  rewrite <- list_of_set_length.
  apply elem_of_cons. right. apply elem_of_app. right.
  unfold candidate_lines.
  destruct (list_of_set (ui_strings_of text)); [done|]. left.
Qed.

Lemma candidates_are_distinct_witness :
  ui_strings_of welcome_file
  = [quoted (s "Welcome Back"); quoted (s "Welcome Back")]
  /\ exists strings,
    find_hardcoded_strings (O := gset_order) (s "app/(tabs)/index.tsx")
      (World welcome_disk []) = Ok strings (World welcome_disk [])
    /\ NoDup strings
    /\ (forall c, c ∈ ui_strings_of welcome_file ->
          length (filter (fun y => y = c) strings) = 1)
    /\ length strings = length (remove_dups (ui_strings_of welcome_file))
    /\ (strings <> [] ->
        found_line (length (remove_dups (ui_strings_of welcome_file)))
          ∈ report (O := gset_order) welcome_disk (s "app/(tabs)/index.tsx")).
Proof.
  split; [by vm_compute|].
  apply (candidates_are_distinct gset_order (World welcome_disk [])
           (s "app/(tabs)/index.tsx") welcome_file).
  vm_compute. reflexivity.
Defined.

(** ** Loops over the file list *)

Section Loops.
Context {O : SetOrder}.

Lemma for_each_app {A : Type} (l1 l2 : list A) (body : A -> M unit) (w : world) :
  for_each (l1 ++ l2) body w
  = match for_each l1 body w with
    | Ok _ w' => for_each l2 body w'
    | Raise e w' => Raise e w'
    end.
Proof.
  revert w. induction l1 as [|a l1 IH]; intros w; [done|].
  cbn [app for_each]. unfold mbind, M_bind.
  destruct (body a w) as [[] w'|e w']; [apply IH | done].
Qed.

(** The loop leaves the disk as it found it, and only adds lines of
    reports to what was printed. *)
Lemma check_files_frame (paths : list (list N)) (w : world) :
  disk (final (check_files paths w)) = disk w
  /\ exists lines,
       stdout (final (check_files paths w)) = stdout w ++ lines
       /\ forall line, line ∈ lines ->
            exists p, p ∈ paths /\ line ∈ report (disk w) p.
Proof.
  unfold check_files. revert w.
  induction paths as [|p paths IH]; intros w.
  - simpl. split; [done|]. exists []. rewrite app_nil_r. split; [done|].
    by intros line ?%elem_of_nil.
  - cbn [for_each]. unfold mbind, M_bind.
    pose proof (check_file_disk w p) as Hd.
    pose proof (check_file_stdout w p) as Hs.
    destruct (check_file p w) as [[] w'|e w']; simpl in Hd, Hs.
    + destruct (IH w') as [Hd' [lines [Hs' Hlines]]].
      split; [congruence|].
      exists (report (disk w) p ++ lines).
      rewrite Hs', Hs, <- app_assoc. split; [done|].
      intros line [Hin|Hin]%elem_of_app.
      * exists p. split; [left | done].
      * destruct (Hlines line Hin) as [q [Hq Hr]]. exists q.
        rewrite <- Hd. split; [by right | done].
    + simpl. split; [done|]. exists (report (disk w) p). split; [done|].
      intros line Hin. exists p. split; [left | done].
Qed.

(** What the whole script prints: its two banner lines, lines of reports,
    and its two closing lines, unless a file cannot be read. *)
Lemma main_frame (w : world) :
  disk (final (main w)) = disk w
  /\ forall line, line ∈ stdout (final (main w)) ->
       line ∈ stdout w
       \/ head line = Some 0x1F30D%N \/ head line = Some 61%N
       \/ head line = Some linefeed
       \/ exists p, p ∈ files /\ line ∈ report (disk w) p.
Proof.
  unfold main, mbind, M_bind. cbn [print disk stdout].
  set (w2 := World (disk w) (_ ++ [repeat 61%N 60])).
  destruct (check_files_frame files w2) as [Hd [lines [Hs Hlines]]].
  assert (Hw2 : forall line, line ∈ stdout w2 ->
            line ∈ stdout w \/ head line = Some 0x1F30D%N
            \/ head line = Some 61%N).
  { intros line. unfold w2. cbn [stdout].
    rewrite !elem_of_app, !list_elem_of_singleton.
    intros [[?| ->]| ->]; [by left | right; by left | right; by right]. }
  destruct (check_files files w2) as [[] w3|e w3]; cbn [final] in Hd, Hs.
  - unfold print. cbn [final disk stdout]. split; [exact Hd|]. intros line.
    rewrite Hs, !elem_of_app, !list_elem_of_singleton.
    intros [[[Hin|Hin]|Hin]|Hin].
    + destruct (Hw2 line Hin) as [?|[?|?]]; tauto.
    + do 4 right. by apply Hlines.
    + subst line. right. right. right. by left.
    + subst line. right. right. right. by left.
  - cbn [final]. split; [exact Hd|]. intros line. rewrite Hs, elem_of_app.
    intros [Hin|Hin].
    + destruct (Hw2 line Hin) as [?|[?|?]]; tauto.
    + do 4 right. by apply Hlines.
Qed.

End Loops.

(** ** C8 *)

(** C8: for a path that does not exist, check_file prints nothing, not
    even the path, and the loop goes on with the paths that follow as if
    the path were not in the list. *)
Theorem missing_file_is_skipped (O : SetOrder) (w : world) (p : list N) :
  disk w !! p = None ->
  check_file p w = Ok tt w
  /\ report (disk w) p = []
  /\ forall before after,
       check_files (before ++ p :: after) w = check_files (before ++ after) w.
Proof.
  intros Hp. split; [by apply check_file_missing|]. split.
  - unfold report. by rewrite check_file_missing.
  - intros before after. unfold check_files. rewrite !for_each_app.
    destruct (check_files_frame before w) as [Hd _]. unfold check_files in Hd.
    destruct (for_each before check_file w) as [[] w'|e w']; [|done].
    simpl in Hd. cbn [for_each]. unfold mbind, M_bind at 1.
    rewrite check_file_missing; [done | by rewrite Hd].
Qed.

Lemma missing_file_is_skipped_witness :
  check_file (O := gset_order) (s "app/(tabs)/index.tsx")
    (World cases_only_disk []) = Ok tt (World cases_only_disk [])
  /\ report (O := gset_order) cases_only_disk (s "app/(tabs)/index.tsx") = []
  /\ forall before after,
       check_files (O := gset_order)
         (before ++ s "app/(tabs)/index.tsx" :: after) (World cases_only_disk [])
       = check_files (O := gset_order) (before ++ after)
           (World cases_only_disk []).
Proof.
  apply (missing_file_is_skipped gset_order (World cases_only_disk [])
           (s "app/(tabs)/index.tsx")).
  vm_compute. reflexivity.
Defined.

(** ** C9 *)

(** C9: the script only reads.  Whatever the disk holds and whichever
    paths are checked, after check_file, after the loop and after the
    whole script, finished or stopped by an exception, the disk is what it
    was: every path names the same entry with the same text, none was
    added and none removed; and opening a file in mode 'r', as the script
    does, changes nothing. *)
Theorem disk_is_unchanged (O : SetOrder) (w : world) :
  disk (final (main w)) = disk w
  /\ (forall paths, disk (final (check_files paths w)) = disk w)
  /\ (forall p, disk (final (check_file p w)) = disk w)
  /\ (forall p, disk (final (find_hardcoded_strings p w)) = disk w)
  /\ (forall p, disk (final (open_read p mode_r w)) = disk w).
Proof.
  split; [apply main_frame|].
  split; [intros paths; apply check_files_frame|].
  split; [intros p; apply check_file_disk|].
  assert (Hopen : forall p, disk (final (open_read p mode_r w)) = disk w).
  { intros p. unfold open_read. by destruct (disk w !! p) as [[text|why]|]. }
  split; [|exact Hopen].
  intros p. unfold find_hardcoded_strings, mbind, M_bind.
  specialize (Hopen p). by destruct (open_read p mode_r w).
Qed.

(** ** C10 *)

Lemma OK_is_filtered_out (content : list N) :
  quoted (s "OK") ∉ ui_strings_of content.
Proof.
  intros Hin. apply elem_of_ui_strings_of in Hin as [i [Hq [_ Hi]]].
  apply quoted_inj in Hq. subst i. discriminate Hi.
Qed.

Lemma common_ok_key (k : list N) :
  (k, s "t('common.ok')") ∈ TRANSLATIONS_entries -> k = quoted (s "OK").
Proof.
  assert (H : Forall (fun kv => kv.2 = s "t('common.ok')" -> kv.1 = quoted (s "OK"))
                TRANSLATIONS_entries).
  { apply (bool_decide_unpack _). vm_compute. exact I. }
  intros Hk. by apply (proj1 (Forall_forall _ _) H (k, _) Hk).
Qed.

(** C10: the entry of the table under the key "OK" is never used.  The
    entry is there, with the replacement t('common.ok'), but the interior
    OK has two characters and the filter keeps interiors of more than two:
    the key is never among the candidates, and no report, so no run of the
    script, has a suggestion line with that replacement. *)
Theorem common_ok_is_unreachable (O : SetOrder) (d : gmap (list N) entry) :
  TRANSLATIONS !! quoted (s "OK") = Some (s "t('common.ok')")
  /\ (forall content, quoted (s "OK") ∉ list_of_set (ui_strings_of content))
  /\ (forall p c, suggestion_line c (s "t('common.ok')") ∉ report d p)
  /\ (forall c, suggestion_line c (s "t('common.ok')")
                  ∉ stdout (final (main (World d [])))).
Proof.
  assert (Hset : forall content,
            quoted (s "OK") ∉ list_of_set (ui_strings_of content)).
  { intros content Hin. apply (proj1 (list_of_set_elem_of _ _)) in Hin.
    by apply OK_is_filtered_out in Hin. }
  assert (Hrep : forall p c, suggestion_line c (s "t('common.ok')") ∉ report d p).
  { intros p c Hin.
    apply suggestion_in_report in Hin as [text [_ [Hc Hr]]].
    apply TRANSLATIONS_lookup, common_ok_key in Hr. subst c.
    apply subseteq_take, Hset in Hc. done. }
  split; [by vm_compute|]. split; [exact Hset|]. split; [exact Hrep|].
  intros c Hin. apply main_frame in Hin. cbn [stdout disk] in Hin.
  destruct Hin as [Hin|[Hin|[Hin|[Hin|[p [_ Hin]]]]]];
    [by apply elem_of_nil in Hin | discriminate Hin.. | by apply Hrep in Hin].
Qed.


(** * More of the script *)

(** ** The pattern *)

(** X1: the pattern matches at the front of a text exactly when the text
    starts with a double quote, an escaped text (plain characters, and
    backslashes each followed by a character that is no line feed) and a
    double quote.  Group 1 is then that escaped text, and the match ends
    right after the closing quote: backtracking finds no other match. *)
Theorem pattern_matches_literals (x : list N) :
  (forall i rest, x = quoted i ++ rest -> escaped_text i = true ->
     exists g, Re.match_at pattern x = Some (g, rest) /\ Re.group g 1 = i)
  /\ (forall g rest, Re.match_at pattern x = Some (g, rest) ->
        x = quoted (Re.group g 1) ++ rest
        /\ escaped_text (Re.group g 1) = true)
  /\ (Re.match_at pattern x = None <->
      ~ exists i rest, x = quoted i ++ rest /\ escaped_text i = true).
Proof.
  pose proof (match_at_pattern x) as Hm.
  destruct (literal_at x) as [[i rest]|] eqn:Hlit.
  - destruct Hm as [g [Hm Hg]].
    apply literal_at_Some in Hlit as [Hx Hi].
    split; [|split].
    + intros j rest' Hx' Hj.
      assert (Hlit' : literal_at x = Some (j, rest'))
        by (apply literal_at_Some; by split).
      assert (Hlit'' : literal_at x = Some (i, rest))
        by (apply literal_at_Some; by split).
      rewrite Hlit' in Hlit''. injection Hlit'' as -> ->. by exists g.
    + intros g' rest' Hm'. rewrite Hm in Hm'. injection Hm' as <- <-.
      by rewrite Hg.
    + rewrite Hm. split; [done|]. intros Hno. exfalso. apply Hno.
      by exists i, rest.
  - split; [|split].
    + intros j rest' Hx' Hj.
      assert (Hlit' : literal_at x = Some (j, rest'))
        by (apply literal_at_Some; by split).
      rewrite Hlit in Hlit'. discriminate Hlit'.
    + intros g rest Hm'. rewrite Hm in Hm'. discriminate Hm'.
    + split; [|done]. intros _ [i [rest [Hx Hi]]].
      assert (Hlit' : literal_at x = Some (i, rest))
        by (apply literal_at_Some; by split).
      rewrite Hlit in Hlit'. discriminate Hlit'.
Qed.

(** ** The raw candidates, case by case *)

(** The raw candidates of a text are found from left to right: a
    character at which no literal starts is passed over, a literal gives
    its interior and the search goes on after its closing quote. *)
Lemma raw_candidates_ind (P : list N -> list (list N) -> Prop) :
  P [] [] ->
  (forall c x, literal_at (c :: x) = None ->
     P x (raw_candidates x) -> P (c :: x) (raw_candidates x)) ->
  (forall i rest, escaped_text i = true ->
     P rest (raw_candidates rest) ->
     P (quoted i ++ rest) (i :: raw_candidates rest)) ->
  forall x, P x (raw_candidates x).
Proof.
  intros Hnil Hskip Hlit x.
  remember (length x) as n eqn:Hn.
  assert (Hle : length x <= n) by lia. clear Hn.
  revert x Hle. induction n as [|n IH]; intros [|c x] Hle;
    cbn [length] in Hle; try lia; try exact Hnil.
  destruct (literal_at (c :: x)) as [[i rest]|] eqn:Hl.
  - apply literal_at_Some in Hl as [Hx Hi]. rewrite Hx.
    rewrite raw_candidates_literal by exact Hi.
    apply Hlit; [exact Hi|]. apply IH.
    apply (f_equal length) in Hx. unfold quoted in Hx.
    cbn [length app] in Hx. rewrite !length_app in Hx. cbn [length] in Hx.
    lia.
  - rewrite raw_candidates_skip by exact Hl.
    apply Hskip; [exact Hl|]. apply IH. lia.
Qed.

(** Every raw candidate stands in the text between two double quotes,
    and is an escaped text. *)
Lemma raw_candidates_sound (x i : list N) :
  i ∈ raw_candidates x ->
  escaped_text i = true
  /\ exists before after, x = before ++ quoted i ++ after.
Proof.
  revert i. pattern x, (raw_candidates x). apply raw_candidates_ind.
  - intros i Hi. by apply elem_of_nil in Hi.
  - intros c y _ IH i Hi. destruct (IH i Hi) as [He [before [after ->]]].
    split; [exact He|]. by exists (c :: before), after.
  - intros j rest Hj IH i Hi. apply elem_of_cons in Hi as [->|Hi].
    + split; [exact Hj|]. by exists [], rest.
    + destruct (IH i Hi) as [He [before [after ->]]].
      split; [exact He|]. exists (quoted j ++ before), after.
      by rewrite <- app_assoc.
Qed.

(** X2: find_hardcoded_strings invents nothing.  Every string of its
    result is a piece of the file's text as it stands there: a double
    quote, an interior of more than two characters that is an escaped
    text and starts with neither a slash nor a hash, and a double quote.
    So every result has at least five characters. *)
Theorem results_are_pieces_of_the_text (O : SetOrder) (w : world)
    (p text : list N) :
  disk w !! p = Some (File text) ->
  exists strings,
    find_hardcoded_strings p w = Ok strings w
    /\ forall c, c ∈ strings ->
         5 <= length c
         /\ exists i before after,
              c = quoted i /\ text = before ++ c ++ after
              /\ escaped_text i = true /\ likely_ui i = true.
Proof.
  intros Hp. exists (list_of_set (ui_strings_of text)).
  split; [by apply find_hardcoded_strings_file|].
  intros c Hc. apply (proj1 (list_of_set_elem_of _ _)) in Hc.
  apply elem_of_ui_strings_of in Hc as [i [-> [Hraw Hi]]].
  apply raw_candidates_sound in Hraw as [He [before [after Htext]]].
  split.
  - apply likely_ui_spec in Hi as [Hlen _]. unfold quoted.
    cbn [length]. rewrite length_app. cbn [length]. lia.
  - by exists i, before, after.
Qed.

Lemma results_are_pieces_of_the_text_witness :
  exists strings,
    find_hardcoded_strings (O := gset_order) (s "app/(tabs)/index.tsx")
      (World mixed_disk []) = Ok strings (World mixed_disk [])
    /\ forall c, c ∈ strings ->
         5 <= length c
         /\ exists i before after,
              c = quoted i /\ mixed_file = before ++ c ++ after
              /\ escaped_text i = true /\ likely_ui i = true.
Proof.
  apply (results_are_pieces_of_the_text gset_order (World mixed_disk [])
           (s "app/(tabs)/index.tsx") mixed_file).
  vm_compute. reflexivity.
Defined.

(** ** Files without candidates *)

(** X3: a file whose text has no double quote, an empty file for one, has
    no candidate.  More generally, when no raw candidate passes the
    filter, find_hardcoded_strings returns the empty list and the report
    is the path line and the marker finding, two or three lines, with no
    count line and no suggestion. *)
Theorem report_without_candidates (O : SetOrder) (w : world) (p text : list N) :
  disk w !! p = Some (File text) ->
  (dquote ∉ text \/ forall i, i ∈ raw_candidates text -> likely_ui i = false) ->
  find_hardcoded_strings p w = Ok [] w
  /\ check_file p w
     = Ok tt (World (disk w) (stdout w ++ header_line p :: marker_lines text))
  /\ 2 <= length (report (disk w) p) <= 3.
Proof.
  intros Hp Hnone.
  assert (Hui : ui_strings_of text = []).
  { rewrite ui_strings_of_spec.
    destruct Hnone as [Hq|Hf].
    - rewrite <- (app_nil_r text), raw_candidates_no_quote by exact Hq.
      reflexivity.
    - induction (raw_candidates text) as [|i l IH]; [reflexivity|].
      rewrite filter_cons, decide_False.
      + apply IH. intros j Hj. apply Hf. by right.
      + rewrite (Hf i) by left. discriminate. }
  assert (Hset : list_of_set (ui_strings_of text) = [])
    by (rewrite Hui; apply list_of_set_nil).
  split; [|split].
  - rewrite (find_hardcoded_strings_file w p text Hp). by rewrite Hset.
  - rewrite (check_file_file w p text Hp), Hset. cbn [candidate_lines].
    by rewrite app_nil_r.
  - rewrite (report_file (disk w) p text Hp), Hset. cbn [candidate_lines].
    rewrite app_nil_r. unfold marker_lines.
    destruct (str_in marker text); cbn [length]; lia.
Qed.

Lemma report_without_candidates_witness :
  find_hardcoded_strings (O := gset_order) (s "app/(tabs)/index.tsx")
    (World empty_disk []) = Ok [] (World empty_disk [])
  /\ check_file (O := gset_order) (s "app/(tabs)/index.tsx") (World empty_disk [])
     = Ok tt (World empty_disk
          ([] ++ header_line (s "app/(tabs)/index.tsx") :: marker_lines []))
  /\ 2 <= length (report (O := gset_order) empty_disk (s "app/(tabs)/index.tsx")) <= 3.
Proof.
  apply (report_without_candidates gset_order (World empty_disk [])
           (s "app/(tabs)/index.tsx") []).
  - vm_compute. reflexivity.
  - left. apply not_elem_of_nil.
Defined.

(** ** Exceptions *)

Section Exceptions.
Context {O : SetOrder}.

(** The loop over paths none of which is unreadable runs to its end and
    prints the reports of the paths one after the other. *)
Lemma check_files_readable (paths : list (list N)) (w : world) :
  (forall q why, q ∈ paths -> disk w !! q <> Some (Unreadable why)) ->
  check_files paths w
  = Ok tt (World (disk w)
       (stdout w ++ concat (report (disk w) <$> paths))).
Proof.
  unfold check_files. revert w.
  induction paths as [|p paths IH]; intros w Hok.
  - cbn [for_each fmap list_fmap concat]. unfold mret, M_ret.
    by rewrite app_nil_r, world_eta.
  - cbn [for_each fmap list_fmap concat]. unfold mbind, M_bind.
    pose proof (check_file_stdout w p) as Hs.
    pose proof (check_file_disk w p) as Hd.
    destruct (check_file p w) as [[] w'|e w'] eqn:Hrun.
    + cbn [final] in Hs, Hd. rewrite IH.
      * rewrite Hd, Hs, <- app_assoc. reflexivity.
      * intros q why Hq. rewrite Hd. apply Hok. by right.
    + exfalso. destruct (disk w !! p) as [[text|why]|] eqn:Hp.
      * rewrite (check_file_file w p text Hp) in Hrun. discriminate Hrun.
      * apply (Hok p why); [left | exact Hp].
      * rewrite (check_file_missing w p Hp) in Hrun. discriminate Hrun.
Qed.

End Exceptions.

(** The script around its loop. *)
Lemma main_unfold {O : SetOrder} (w : world) :
  main w
  = match check_files files
            (World (disk w) (stdout w ++ [banner_line; rule_line])) with
    | Ok _ w' =>
        Ok tt (World (disk w') (stdout w' ++ [complete_line; guide_line]))
    | Raise e w' => Raise e w'
    end.
Proof.
  unfold main, mbind, M_bind, print. cbn [disk stdout].
  fold banner_line rule_line complete_line guide_line.
  rewrite <- (app_assoc (stdout w) [banner_line] [rule_line]). cbn [app].
  destruct (check_files files _) as [[] w'|e w']; [|reflexivity].
  cbn [disk stdout]. rewrite <- app_assoc. reflexivity.
Qed.

(** X4: a path that exists but cannot be read stops the run.  check_file
    prints the path line and raises, an OSError when [open] refuses the
    path and a UnicodeDecodeError when its bytes are not UTF-8; the loop
    raises with it, after the reports of the paths before, and the paths
    after it are not looked at; the script then ends without its closing
    lines.  Nothing is written to the disk. *)
Theorem unreadable_file_stops_the_run (O : SetOrder) (w : world)
    (before after : list (list N)) (p : list N) (why : cause) :
  disk w !! p = Some (Unreadable why) ->
  (forall q why', q ∈ before -> disk w !! q <> Some (Unreadable why')) ->
  check_file p w
  = Raise (raised why) (World (disk w) (stdout w ++ [header_line p]))
  /\ check_files (before ++ p :: after) w
     = Raise (raised why) (World (disk w)
         (stdout w ++ concat (report (disk w) <$> before) ++ [header_line p]))
  /\ (files = before ++ p :: after ->
      main w
      = Raise (raised why) (World (disk w)
          (stdout w ++ [banner_line; rule_line]
             ++ concat (report (disk w) <$> before) ++ [header_line p])))
  /\ (raised NoAccess = OSError /\ raised NotUtf8 = UnicodeDecodeError).
Proof.
  intros Hp Hbefore.
  assert (Hloop : forall w0, disk w0 = disk w ->
    check_files (before ++ p :: after) w0
    = Raise (raised why) (World (disk w)
        (stdout w0 ++ concat (report (disk w) <$> before) ++ [header_line p]))).
  { intros w0 Hd. unfold check_files. rewrite for_each_app.
    fold (check_files before w0).
    rewrite check_files_readable by (rewrite Hd; exact Hbefore).
    cbn [for_each]. unfold mbind, M_bind.
    rewrite (check_file_unreadable _ p why)
      by (cbn [disk]; rewrite Hd; exact Hp).
    cbn [disk stdout]. by rewrite Hd, <- app_assoc. }
  split; [by apply check_file_unreadable|]. split; [by apply Hloop|].
  split; [|by split].
  intros Hfiles. rewrite main_unfold, Hfiles, Hloop by reflexivity.
  cbn [stdout]. by rewrite <- app_assoc.
Qed.

Lemma unreadable_file_stops_the_run_witness :
  (check_file (O := gset_order) (s "app/(tabs)/index.tsx") (World locked_disk [])
   = Raise OSError
       (World locked_disk ([] ++ [header_line (s "app/(tabs)/index.tsx")]))
   /\ check_files (O := gset_order)
        (take 2 files ++ s "app/(tabs)/index.tsx" :: drop 3 files)
        (World locked_disk [])
      = Raise OSError (World locked_disk
          ([] ++ concat (report (O := gset_order) locked_disk <$> take 2 files)
             ++ [header_line (s "app/(tabs)/index.tsx")]))
   /\ (files = take 2 files ++ s "app/(tabs)/index.tsx" :: drop 3 files ->
       main (O := gset_order) (World locked_disk [])
       = Raise OSError (World locked_disk
           ([] ++ [banner_line; rule_line]
              ++ concat (report (O := gset_order) locked_disk <$> take 2 files)
              ++ [header_line (s "app/(tabs)/index.tsx")])))
   /\ (raised NoAccess = OSError /\ raised NotUtf8 = UnicodeDecodeError))
  /\ check_file (O := gset_order) (s "app/(tabs)/cases.tsx") (World locked_disk [])
     = Raise UnicodeDecodeError
         (World locked_disk ([] ++ [header_line (s "app/(tabs)/cases.tsx")])).
Proof.
  split.
  - apply (unreadable_file_stops_the_run gset_order (World locked_disk [])
             (take 2 files) (drop 3 files) (s "app/(tabs)/index.tsx") NoAccess).
    + vm_compute. reflexivity.
    + intros q why' Hq. cbn [take files] in Hq.
      rewrite !elem_of_cons, elem_of_nil in Hq.
      destruct Hq as [->|[->|[]]]; vm_compute; discriminate.
  - apply (unreadable_file_stops_the_run gset_order (World locked_disk [])
             [] [] (s "app/(tabs)/cases.tsx") NotUtf8).
    + vm_compute. reflexivity.
    + intros q why' Hq. by apply elem_of_nil in Hq.
Defined.

(** X5: when none of the seven paths of the list is unreadable, the
    script runs to its end and prints, after what was printed before, the
    banner and the rule, the reports of the seven paths in the order of
    the list (nothing for a path that does not exist), the completion line
    and the pointer to the guide; the disk is as before. *)
Theorem main_prints_the_reports_in_order (O : SetOrder) (w : world) :
  (forall q why, q ∈ files -> disk w !! q <> Some (Unreadable why)) ->
  length files = 7
  /\ main w
     = Ok tt (World (disk w)
         (stdout w ++ [banner_line; rule_line]
            ++ concat (report (disk w) <$> files)
            ++ [complete_line; guide_line])).
Proof.
  intros Hok. split; [reflexivity|].
  rewrite main_unfold, check_files_readable by exact Hok.
  cbn [disk stdout]. by rewrite <- !app_assoc.
Qed.

Lemma main_prints_the_reports_in_order_witness :
  length files = 7
  /\ main (O := gset_order) (World cases_only_disk [])
     = Ok tt (World cases_only_disk
         ([] ++ [banner_line; rule_line]
            ++ concat (report (O := gset_order) cases_only_disk <$> files)
            ++ [complete_line; guide_line])).
Proof.
  apply (main_prints_the_reports_in_order gset_order (World cases_only_disk [])).
  intros q why Hq. unfold files in Hq.
  rewrite !elem_of_cons, elem_of_nil in Hq.
  destruct Hq as [->|[->|[->|[->|[->|[->|[->|[]]]]]]]];
    vm_compute; discriminate.
Defined.

(** ** The entries of the table *)

Lemma TRANSLATIONS_reachable_keys (k v : list N) :
  (k, v) ∈ TRANSLATIONS_entries -> k <> quoted (s "OK") ->
  reachable_key k = true.
Proof.
  assert (H : Forall (fun kv => kv.1 <> quoted (s "OK") ->
                        reachable_key kv.1 = true) TRANSLATIONS_entries).
  { apply (bool_decide_unpack _). vm_compute. exact I. }
  intros Hkv. exact (proj1 (Forall_forall _ _) H (k, v) Hkv).
Qed.

(** X6: every entry of the table but the one for "OK" can be reached.
    When a file holds a key of the table, with no other double quote
    before or after it, the report counts one candidate and suggests that
    key's replacement. *)
Theorem table_entry_is_suggested (O : SetOrder) (w : world)
    (p k v before after : list N) :
  (k, v) ∈ TRANSLATIONS_entries -> k <> quoted (s "OK") ->
  dquote ∉ before -> dquote ∉ after ->
  disk w !! p = Some (File (before ++ k ++ after)) ->
  report (disk w) p
  = header_line p :: marker_lines (before ++ k ++ after)
      ++ [found_line 1; suggestion_line k v].
Proof.
  intros Hkv Hok Hbefore Hafter Hp.
  pose proof (TRANSLATIONS_reachable_keys k v Hkv Hok) as Hreach.
  unfold reachable_key in Hreach.
  apply andb_true_iff in Hreach as [Hreach Hlikely].
  apply andb_true_iff in Hreach as [Hq He].
  apply bool_decide_eq_true in Hq.
  set (i := interior k) in *.
  assert (Hraw : raw_candidates (before ++ k ++ after) = [i]).
  { rewrite Hq, raw_candidates_no_quote by exact Hbefore.
    rewrite raw_candidates_literal by exact He.
    rewrite <- (app_nil_r after), raw_candidates_no_quote by exact Hafter.
    reflexivity. }
  assert (Hui : ui_strings_of (before ++ k ++ after) = [k]).
  { rewrite ui_strings_of_spec, Hraw.
    rewrite filter_cons, decide_True by exact Hlikely.
    cbn [fmap list_fmap]. rewrite filter_nil. cbn [list_fmap].
    by rewrite <- Hq. }
  assert (Hset : list_of_set (ui_strings_of (before ++ k ++ after)) = [k]).
  { apply list_of_set_one. intros y.
    rewrite Hui, elem_of_cons, elem_of_nil. tauto. }
  rewrite (report_file (disk w) p _ Hp), Hset.
  unfold candidate_lines, preview_lines. cbn [take omap list_omap length].
  apply TRANSLATIONS_lookup in Hkv. rewrite Hkv. reflexivity.
Qed.

Lemma table_entry_is_suggested_witness :
  report (O := gset_order) one_key_disk (s "app/(tabs)/index.tsx")
  = header_line (s "app/(tabs)/index.tsx")
      :: marker_lines (s "hint = " ++ quoted (s "Don't have an account? ")
                         ++ s ";")
      ++ [found_line 1;
          suggestion_line (quoted (s "Don't have an account? "))
            (s "t('auth.dontHaveAccount') + ' '")].
Proof.
  apply (table_entry_is_suggested gset_order (World one_key_disk [])
           (s "app/(tabs)/index.tsx")
           (quoted (s "Don't have an account? "))
           (s "t('auth.dontHaveAccount') + ' '") (s "hint = ") (s ";")).
  - apply (bool_decide_unpack _). vm_compute. exact I.
  - vm_compute. discriminate.
  - apply (bool_decide_unpack _). vm_compute. exact I.
  - apply (bool_decide_unpack _). vm_compute. exact I.
  - vm_compute. reflexivity.
Defined.

(** ** The size of a report *)

(** X7: a report has at most nine lines, whatever the file holds: the
    path, one or two marker lines, the count, and at most five
    suggestions.  A path that does not exist has an empty report, and one
    that cannot be read a report of one line. *)
Theorem report_has_at_most_nine_lines (O : SetOrder)
    (d : gmap (list N) entry) (p : list N) :
  length (report d p) <= 9
  /\ (d !! p = None -> report d p = [])
  /\ (forall why, d !! p = Some (Unreadable why) ->
        report d p = [header_line p])
  /\ (forall text, d !! p = Some (File text) -> 2 <= length (report d p)).
Proof.
  assert (Hfile : forall text, d !! p = Some (File text) ->
            2 <= length (report d p) <= 9).
  { intros text Hp. rewrite (report_file d p text Hp).
    cbn [length]. rewrite length_app.
    assert (1 <= length (marker_lines text) <= 2)
      by (unfold marker_lines; destruct (str_in marker text); cbn; lia).
    assert (length (candidate_lines (list_of_set (ui_strings_of text))) <= 6).
    { unfold candidate_lines.
      destruct (list_of_set (ui_strings_of text)) as [|c strings];
        [cbn; lia|].
      cbn [length]. pose proof (preview_lines_length (c :: strings)). lia. }
    lia. }
  assert (Hnone : d !! p = None -> report d p = []).
  { intros Hp. unfold report. by rewrite check_file_missing by exact Hp. }
  assert (Hbad : forall why, d !! p = Some (Unreadable why) ->
            report d p = [header_line p]).
  { intros why Hp. unfold report.
    by rewrite (check_file_unreadable _ p why) by exact Hp. }
  split; [|split; [exact Hnone|split; [exact Hbad|]]].
  - destruct (d !! p) as [[text|why]|] eqn:Hp.
    + by apply (Hfile text).
    + rewrite (Hbad why) by reflexivity. cbn; lia.
    + rewrite Hnone by reflexivity. cbn; lia.
  - intros text Hp. by apply (Hfile text).
Qed.

(** ** The iteration order *)

(** X8: the iteration order of the set only matters for the suggestions.
    For two orders, the reports of a file start with the same lines, path,
    marker finding and count, and go on with the suggestions of the first
    five candidates of each order; with at most five distinct candidates
    the two reports have the same lines, possibly in another order. *)
Theorem order_only_moves_suggestions (O1 O2 : SetOrder)
    (d : gmap (list N) entry) (p text : list N) :
  d !! p = Some (File text) ->
  let strings1 := list_of_set (SetOrder := O1) (ui_strings_of text) in
  let strings2 := list_of_set (SetOrder := O2) (ui_strings_of text) in
  strings1 ≡ₚ strings2
  /\ (exists common,
        report (O := O1) d p = common ++ preview_lines strings1
        /\ report (O := O2) d p = common ++ preview_lines strings2)
  /\ (length (remove_dups (ui_strings_of text)) <= 5 ->
      report (O := O1) d p ≡ₚ report (O := O2) d p).
Proof.
  intros Hp strings1 strings2.
  assert (Hperm : strings1 ≡ₚ strings2).
  { apply NoDup_Permutation; try apply list_of_set_NoDup.
    intros x. unfold strings1, strings2.
    by rewrite !list_of_set_elem_of. }
  assert (Hlen : length strings1 = length strings2)
    by by apply Permutation_length.
  assert (Hrep : forall (O : SetOrder),
    report (O := O) d p
    = (header_line p :: marker_lines text
         ++ match list_of_set (SetOrder := O) (ui_strings_of text) with
            | [] => []
            | _ :: _ => [found_line (length (remove_dups (ui_strings_of text)))]
            end)
      ++ preview_lines (list_of_set (SetOrder := O) (ui_strings_of text))).
  { intros O. rewrite (report_file (O := O) d p text Hp).
    unfold candidate_lines. rewrite <- (list_of_set_length (O := O)).
    destruct (list_of_set (SetOrder := O) (ui_strings_of text)) as [|c l].
    - unfold preview_lines. cbn [take omap list_omap].
      by rewrite !app_nil_r.
    - cbn [app]. rewrite <- app_assoc. reflexivity. }
  assert (Hcommon :
    match strings1 with
    | [] => []
    | _ :: _ => [found_line (length (remove_dups (ui_strings_of text)))]
    end
    = match strings2 with
      | [] => []
      | _ :: _ => [found_line (length (remove_dups (ui_strings_of text)))]
      end).
  { destruct strings1, strings2; try reflexivity; discriminate Hlen. }
  split; [exact Hperm|]. split.
  - eexists. split; [apply Hrep|]. rewrite Hrep. fold strings1 strings2.
    by rewrite Hcommon.
  - intros Hfive. rewrite !Hrep. fold strings1 strings2. rewrite Hcommon.
    apply Permutation_app_head. unfold preview_lines.
    rewrite !take_ge.
    + by rewrite Hperm.
    + unfold strings2. rewrite list_of_set_length. exact Hfive.
    + unfold strings1. rewrite list_of_set_length. exact Hfive.
Qed.

Lemma order_only_moves_suggestions_witness :
  let strings1 := list_of_set (SetOrder := gset_order)
                    (ui_strings_of two_literals_file) in
  let strings2 := list_of_set (SetOrder := first_seen_order)
                    (ui_strings_of two_literals_file) in
  strings1 ≡ₚ strings2
  /\ (exists common,
        report (O := gset_order) two_literals_disk (s "app/(tabs)/index.tsx")
        = common ++ preview_lines strings1
        /\ report (O := first_seen_order) two_literals_disk
             (s "app/(tabs)/index.tsx")
           = common ++ preview_lines strings2)
  /\ (length (remove_dups (ui_strings_of two_literals_file)) <= 5 ->
      report (O := gset_order) two_literals_disk (s "app/(tabs)/index.tsx")
      ≡ₚ report (O := first_seen_order) two_literals_disk
           (s "app/(tabs)/index.tsx")).
Proof.
  apply (order_only_moves_suggestions gset_order first_seen_order
           two_literals_disk (s "app/(tabs)/index.tsx") two_literals_file).
  vm_compute. reflexivity.
Defined.

(** ** What a path names decides how the calls end *)


(** ** Counting double quotes *)

(** A literal has at least its two double quotes. *)
Lemma quotes_of_literal (i rest : list N) :
  2 + length (filter (fun c => c = dquote) rest)
  <= length (filter (fun c => c = dquote) (quoted i ++ rest)).
Proof.
  unfold quoted. cbn [app]. rewrite filter_cons, decide_True by reflexivity.
  rewrite <- app_assoc, !filter_app. cbn [app].
  rewrite filter_cons, decide_True by reflexivity.
  cbn [length]. rewrite !length_app. cbn [length]. lia.
Qed.

Lemma remove_dups_length (l : list (list N)) :
  length (remove_dups l) <= length l.
Proof.
  induction l as [|x l IH]; [reflexivity|]. cbn [remove_dups].
  destruct (decide_rel elem_of x l); cbn [length]; lia.
Qed.

(** X10: every candidate takes two double quotes of the text, its own,
    and no two candidates share one: twice the number of raw candidates,
    and so twice the count a report shows, is at most the number of
    double quotes in the file. *)
Theorem two_quotes_per_candidate (O : SetOrder) (w : world) (p text : list N) :
  disk w !! p = Some (File text) ->
  2 * length (raw_candidates text)
    <= length (filter (fun c => c = dquote) text)
  /\ exists strings,
       find_hardcoded_strings p w = Ok strings w
       /\ 2 * length strings <= length (filter (fun c => c = dquote) text).
Proof.
  intros Hp.
  assert (Hraw : 2 * length (raw_candidates text)
                 <= length (filter (fun c => c = dquote) text)).
  { pattern text, (raw_candidates text). apply raw_candidates_ind.
    - cbn. lia.
    - intros c x _ IH. rewrite filter_cons.
      destruct (decide (c = dquote)); cbn [length]; lia.
    - intros i rest _ IH. pose proof (quotes_of_literal i rest).
      cbn [length]. lia. }
  split; [exact Hraw|].
  exists (list_of_set (ui_strings_of text)).
  split; [by apply find_hardcoded_strings_file|].
  rewrite list_of_set_length.
  assert (length (remove_dups (ui_strings_of text))
          <= length (raw_candidates text)); [|lia].
  etransitivity; [|etransitivity].
  - apply remove_dups_length.
  - rewrite ui_strings_of_spec, length_fmap. apply length_filter.
  - reflexivity.
Qed.

Lemma two_quotes_per_candidate_witness :
  2 * length (raw_candidates mixed_file)
    <= length (filter (fun c => c = dquote) mixed_file)
  /\ exists strings,
       find_hardcoded_strings (O := gset_order) (s "app/(tabs)/index.tsx")
         (World mixed_disk []) = Ok strings (World mixed_disk [])
       /\ 2 * length strings
          <= length (filter (fun c => c = dquote) mixed_file).
Proof.
  apply (two_quotes_per_candidate gset_order (World mixed_disk [])
           (s "app/(tabs)/index.tsx") mixed_file).
  vm_compute. reflexivity.
Defined.

(** ** The candidates in the order of the text *)

(** X11: findall reports the matches from left to right and without
    overlap.  Every text is made of stretches of other text, each
    followed by a quoted literal, and of a last stretch; the raw
    candidates are the interiors of these literals, in that order, each an
    escaped text. *)
Theorem candidates_in_text_order (x : list N) :
  exists (pieces : list (list N * list N)) (last_stretch : list N),
    x = concat ((fun gi => gi.1 ++ quoted gi.2) <$> pieces) ++ last_stretch
    /\ raw_candidates x = pieces.*2
    /\ Forall (fun gi => escaped_text gi.2 = true) pieces.
Proof.
  pattern x, (raw_candidates x). apply raw_candidates_ind.
  - exists [], []. by repeat split.
  - intros c y _ [pieces [final_part [Hy [Hraw Hall]]]].
    destruct pieces as [|[g i] pieces].
    + exists [], (c :: final_part). cbn in *. split; [by f_equal|].
      by split.
    + exists ((c :: g, i) :: pieces), final_part.
      cbn [fmap list_fmap concat fst snd app] in *.
      split; [by rewrite Hy|]. split; [exact Hraw|].
      apply Forall_cons in Hall as [Hi Hall]. by apply Forall_cons.
  - intros i rest Hi [pieces [final_part [Hrest [Hraw Hall]]]].
    exists (([], i) :: pieces), final_part.
    cbn [fmap list_fmap concat fst snd app].
    split; [by rewrite <- app_assoc, <- Hrest|].
    split; [by rewrite Hraw|]. by apply Forall_cons.
Qed.

(** ** No line twice *)

Lemma preview_lines_NoDup (strings : list (list N)) :
  NoDup strings -> NoDup (preview_lines strings).
Proof.
  intros Hnd. unfold preview_lines.
  assert (Hnd5 : NoDup (take 5 strings)).
  { apply (sublist_NoDup (take 5 strings) strings);
      [exact Hnd | apply sublist_take]. }
  induction Hnd5 as [|c l Hc Hl IH]; [apply NoDup_nil_2|].
  cbn [omap list_omap].
  destruct (TRANSLATIONS !! c) as [r|] eqn:Hr;
    cbn [fmap option_fmap option_map]; [|exact IH].
  apply NoDup_cons. split; [|exact IH].
  intros Hin. apply list_elem_of_omap in Hin as [k [Hk Hline]].
  destruct (TRANSLATIONS !! k) as [v|] eqn:Hv; [|discriminate Hline].
  cbn [fmap option_fmap option_map] in Hline. apply (inj Some) in Hline.
  pose proof Hv as Hkv. apply TRANSLATIONS_lookup in Hkv.
  destruct (TRANSLATIONS_no_arrow k v Hkv) as [Hak Hav].
  symmetry in Hline.
  apply suggestion_line_inj in Hline as [-> _]; [|exact Hak|exact Hav].
  by apply Hc.
Qed.

(** X12: a report never has a line twice.  In particular a candidate gets
    at most one suggestion line, however often the file repeats the
    literal. *)
Theorem report_lines_are_distinct (O : SetOrder) (d : gmap (list N) entry)
    (p : list N) :
  NoDup (report d p).
Proof.
  destruct (d !! p) as [[text|why]|] eqn:Hp.
  - rewrite (report_file d p text Hp).
    assert (Hm : NoDup (marker_lines text)).
    { unfold marker_lines. destruct (str_in marker text).
      - apply NoDup_singleton.
      - apply NoDup_cons. split; [|apply NoDup_singleton].
        rewrite list_elem_of_singleton. intros H.
        apply (f_equal length) in H. vm_compute in H. discriminate H. }
    assert (Hstart_m : forall line, line ∈ marker_lines text ->
              line_start line = [32; 32; 0x274C]%N
              \/ line_start line = [32; 32; 0x2705]%N).
    { intros line. unfold marker_lines. destruct (str_in marker text);
        rewrite ?elem_of_cons, elem_of_nil; intros H;
        repeat destruct H as [H|H]; try done; subst line; by eauto. }
    assert (Hstart_c : forall line,
              line ∈ candidate_lines (list_of_set (ui_strings_of text)) ->
              line_start line = [32; 32; 70]%N
              \/ line_start line = [32; 32; 32]%N).
    { intros line. unfold candidate_lines.
      destruct (list_of_set (ui_strings_of text)) as [|c l];
        [by intros ?%elem_of_nil|].
      rewrite elem_of_cons. intros [->|H]; [by left|]. right.
      apply elem_of_preview_lines in H as [k [v [_ [_ ->]]]]. reflexivity. }
    assert (Hc : NoDup (candidate_lines (list_of_set (ui_strings_of text)))).
    { unfold candidate_lines.
      pose proof (list_of_set_NoDup (ui_strings_of text)) as Hnd.
      destruct (list_of_set (ui_strings_of text)) as [|c l];
        [apply NoDup_nil_2|].
      apply NoDup_cons. split; [|by apply preview_lines_NoDup].
      intros H. apply elem_of_preview_lines in H as [k [v [_ [_ H]]]].
      apply (f_equal line_start) in H. discriminate H. }
    apply NoDup_cons. split.
    + rewrite elem_of_app. intros [H|H].
      * apply Hstart_m in H. rewrite line_start_header in H.
        destruct H as [H|H]; discriminate H.
      * apply Hstart_c in H. rewrite line_start_header in H.
        destruct H as [H|H]; discriminate H.
    + apply NoDup_app. split; [exact Hm|]. split; [|exact Hc].
      intros line H1 H2. apply Hstart_m in H1. apply Hstart_c in H2.
      destruct H1 as [H1|H1], H2 as [H2|H2]; rewrite H1 in H2;
        discriminate H2.
  - unfold report. rewrite (check_file_unreadable _ p why) by exact Hp.
    cbn [final stdout app]. apply NoDup_singleton.
  - unfold report. rewrite check_file_missing by exact Hp.
    cbn [final stdout]. apply NoDup_nil_2.
Qed.
